(** * Outline addon helpers: a shallow embedding of the tutorial's code

    The chapter [content/creating-addons/react/en/decorators.md] carries
    three JavaScript modules: [src/helpers.js] ([clearStyles],
    [clearStyle], [addOutlineStyles]), [src/outlineCSS.js] (the style-text
    generator) and [src/withGlobals.js] (the decorator that drives the
    helpers from the [outlineActive] global).  The helpers act on the
    browser's [document]; this file models the part of the DOM they touch,
    embeds the three modules over it and proves the properties of the
    style registry they implement.

    Scope of the DOM model.  Element objects live in a store and are
    referred to by reference, as in JavaScript; the document attaches some
    of them as children of its [head] (when it has one) and of its [body].
    The documents of the model are therefore those whose elements with an
    [id] are children of the head or of the body: the root element, the
    head and the body carry no [id], and an element with an [id] holds
    text and no element.  An element holds the data of its text child.
    Writing [innerHTML] goes through the parser, which reads a carriage
    return as a line feed; the model covers texts without markup and
    character references ([plain], below), which is what the generator
    writes for a story identifier made of letters, digits and dashes.
    Reading [innerHTML] serialises the text: as it stands for a [style]
    element, escaped for an ordinary one.  [getElementById] compares the
    [id] attribute with its argument and finds nothing for the empty
    string, as the DOM does. *)

From Stdlib Require Import List String Ascii Bool Arith Lia Permutation.
Import ListNotations.

Open Scope string_scope.
Open Scope list_scope.

(** ** The document object model *)

Module Dom.

(** A reference to an element object: its index in the object store. *)
Definition node := nat.

Record element := mkElement {
  tagName : string;
  elem_id : option string;      (* the [id] attribute, when set *)
  text : string                 (* the data of the text child *)
}.

(** The two elements of the document that hold the modelled children. *)
Inductive parent := Head | Body.

Record document := mkDocument {
  objects : list element;       (* every element object created so far *)
  head : option (list node);    (* children of [document.head]; [None]: no head *)
  body : list node              (* children of [document.body] *)
}.

Definition children (p : parent) (d : document) : list node :=
  match p with
  | Head => match head d with Some l => l | None => [] end
  | Body => body d
  end.

(** The attached elements in tree order: head comes before body. *)
Definition tree (d : document) : list node :=
  children Head d ++ children Body d.

Definition deref (d : document) (n : node) : option element :=
  nth_error (objects d) n.

Fixpoint update (l : list element) (n : node) (e : element) : list element :=
  match l, n with
  | [], _ => []
  | _ :: l', O => e :: l'
  | x :: l', S n' => x :: update l' n' e
  end.

(** An element has the ID [sel] when its [id] attribute is [sel] and
    [sel] is not the empty string: an empty [id] attribute gives the
    element no ID, and no element is found under the empty string. *)
Definition has_id (d : document) (sel : string) (n : node) : bool :=
  match deref d n with
  | Some e =>
      match elem_id e with
      | Some i => negb (String.eqb sel "") && String.eqb i sel
      | None => false
      end
  | None => false
  end.

(** [document.getElementById]: the first attached element, in tree
    order, whose ID is [sel]; [None] stands for JavaScript's [null]. *)
Definition getElementById (sel : string) (d : document) : option node :=
  find (has_id d sel) (tree d).

Definition mem (n : node) (l : list node) : bool := existsb (Nat.eqb n) l.

Definition CR : ascii := ascii_of_nat 13.
Definition LF : ascii := ascii_of_nat 10.
Definition NUL : ascii := ascii_of_nat 0.

(** What the parser makes of a text written to [innerHTML]: a carriage
    return, alone or followed by a line feed, becomes one line feed.
    Markup and character references are outside the model. *)
Fixpoint rawtext (s : string) : string :=
  match s with
  | EmptyString => EmptyString
  | String c s' =>
      if Ascii.eqb c CR
      then String LF
             match s' with
             | String c' s'' => if Ascii.eqb c' LF then rawtext s'' else rawtext s'
             | EmptyString => EmptyString
             end
      else String c (rawtext s')
  end.

(** The texts the model covers: no carriage return, no NUL, no [<] and
    no [&]. *)
Definition plain_char (c : ascii) : bool :=
  negb (Ascii.eqb c CR || Ascii.eqb c NUL || Ascii.eqb c "<" || Ascii.eqb c "&").

Fixpoint plain (s : string) : bool :=
  match s with
  | EmptyString => true
  | String c s' => plain_char c && plain s'
  end.

(** The elements whose text is serialised as it stands. *)
Definition serializes_raw (tag : string) : bool :=
  existsb (String.eqb tag)
    ["style"; "script"; "xmp"; "iframe"; "noembed"; "noframes"; "plaintext";
     "noscript"].

(** Escaping of a text in the serialisation of an ordinary element; the
    no-break space is the two bytes 194, 160. *)
Fixpoint escape (s : string) : string :=
  match s with
  | EmptyString => EmptyString
  | String c s' =>
      if Ascii.eqb c "&" then ("&amp;" ++ escape s')%string
      else if Ascii.eqb c "<" then ("&lt;" ++ escape s')%string
      else if Ascii.eqb c ">" then ("&gt;" ++ escape s')%string
      else if Ascii.eqb c (ascii_of_nat 194)
      then match s' with
           | String c' s'' =>
               if Ascii.eqb c' (ascii_of_nat 160) then ("&nbsp;" ++ escape s'')%string
               else String c (escape s')
           | EmptyString => String c EmptyString
           end
      else String c (escape s')
  end.

Definition serialize (e : element) : string :=
  if serializes_raw (tagName e) then text e else escape (text e).

Fixpoint remove_node (n : node) (l : list node) : list node :=
  match l with
  | [] => []
  | x :: l' => if Nat.eqb n x then l' else x :: remove_node n l'
  end.

(** The initial document of the preview: a head and a body with no
    style element yet. *)
Definition empty_document : document := mkDocument [] (Some []) [].

End Dom.

(** ** Completions and the state monad of the scripts *)

Module Js.
Import Dom.

Inductive exn := TypeError | ReferenceError | NotFoundError.

Inductive completion (A : Type) :=
| Normal (a : A)
| Throw (e : exn).
Arguments Normal {A} a.
Arguments Throw {A} e.

(** A script transforms the document and completes normally or throws;
    what it did to the document before throwing stays done. *)
Definition M (A : Type) := document -> completion A * document.

Definition ret {A} (a : A) : M A := fun d => (Normal a, d).

Definition throw {A} (e : exn) : M A := fun d => (Throw e, d).

Definition bind {A B} (m : M A) (k : A -> M B) : M B :=
  fun d =>
    match m d with
    | (Normal a, d') => k a d'
    | (Throw e, d') => (Throw e, d')
    end.

Definition gets {A} (f : document -> A) : M A := fun d => (Normal (f d), d).

Definition modify (f : document -> document) : M unit :=
  fun d => (Normal tt, f d).

Definition outcome {A} (m : M A) (d : document) : completion A := fst (m d).

Definition exec {A} (m : M A) (d : document) : document := snd (m d).

(** [Array.prototype.forEach] over a script. *)
Fixpoint forEach {A} (f : A -> M unit) (l : list A) : M unit :=
  match l with
  | [] => ret tt
  | x :: l' => bind (f x) (fun _ => forEach f l')
  end.

End Js.

Notation "x <- m ;; k" := (Js.bind m (fun x => k))
  (at level 61, m at next level, right associativity).
Notation "m ;;; k" := (Js.bind m (fun _ => k))
  (at level 61, right associativity).

(** ** The DOM operations the helpers call *)

Module DomApi.
Import Dom Js.

(** [document.getElementById(sel)] *)
Definition document_getElementById (sel : string) : M (option node) :=
  gets (getElementById sel).

(** [document.createElement(tag)]: a new, detached element object. *)
Definition createElement (tag : string) : M node :=
  fun d =>
    (Normal (List.length (objects d)),
     mkDocument (objects d ++ [mkElement tag None EmptyString]) (head d) (body d)).

Definition with_object (n : node) (f : element -> element) : M unit :=
  fun d =>
    match deref d n with
    | Some e => (Normal tt, mkDocument (update (objects d) n (f e)) (head d) (body d))
    | None => (Throw TypeError, d)
    end.

(** [el.setAttribute(name, value)]; of the attributes only [id] is
    modelled. *)
Definition setAttribute (n : node) (name value : string) : M unit :=
  with_object n (fun e =>
    if String.eqb name "id"
    then mkElement (tagName e) (Some value) (text e)
    else e).

(** [el.innerHTML]: the serialisation of the element's text. *)
Definition get_innerHTML (n : node) : M string :=
  fun d =>
    match deref d n with
    | Some e => (Normal (serialize e), d)
    | None => (Throw TypeError, d)
    end.

(** [el.innerHTML = css]: the element's text becomes what the parser
    makes of [css]. *)
Definition set_innerHTML (n : node) (css : string) : M unit :=
  with_object n (fun e => mkElement (tagName e) (elem_id e) (rawtext css)).

(** [document.head]: [None] ([null]) when the document has no head. *)
Definition document_head : M (option parent) :=
  gets (fun d => match head d with Some _ => Some Head | None => None end).

(** [el.parentElement]: [None] ([null]) for a detached element.  An
    element found by [getElementById] is attached, below the head or the
    body, so that in the documents of the model the helpers never meet
    the [null] case. *)
Definition parentElement (n : node) : M (option parent) :=
  gets (fun d =>
    if mem n (children Head d) then Some Head
    else if mem n (children Body d) then Some Body
    else None).

Definition set_children (p : parent) (l : list node) (d : document) : document :=
  match p with
  | Head => mkDocument (objects d) (Some l) (body d)
  | Body => mkDocument (objects d) (head d) l
  end.

Definition detach (n : node) (d : document) : document :=
  mkDocument (objects d)
    (match head d with Some l => Some (remove_node n l) | None => None end)
    (remove_node n (body d)).

(** [p.appendChild(el)]: [el] leaves its former parent, if any, and
    becomes the last child of [p]. *)
Definition appendChild (p : parent) (n : node) : M unit :=
  fun d =>
    match p, head d with
    | Head, None => (Throw TypeError, d)
    | _, _ =>
        let d' := detach n d in
        (Normal tt, set_children p (children p d' ++ [n]) d')
    end.

(** [p.removeChild(el)]: a [NotFoundError] when [el] is not a child of
    [p]. *)
Definition removeChild (p : parent) (n : node) : M unit :=
  fun d =>
    if mem n (children p d)
    then (Normal tt, set_children p (remove_node n (children p d)) d)
    else (Throw NotFoundError, d).

End DomApi.

(** ** src/helpers.js *)

Module Helpers.
Import Dom Js DomApi.

(** The argument of [clearStyles]: one selector or an array of them. *)
Inductive selector_arg :=
| One (selector : string)
| Many (selectors : list string).

Definition clearStyle (selector : string) : M unit :=
  element <- document_getElementById selector ;;
  match element with
  | Some el =>
      p <- parentElement el ;;
      match p with
      | Some pe => removeChild pe el
      | None => ret tt
      end
  | None => ret tt
  end.

Definition clearStyles (selector : selector_arg) : M unit :=
  (* Array.isArray(selector) ? selector : [selector] *)
  let selectors :=
    match selector with
    | Many l => l
    | One s => [s]
    end in
  forEach clearStyle selectors.

Definition addOutlineStyles (selector css : string) : M unit :=
  existingStyle <- document_getElementById selector ;;
  match existingStyle with
  | Some el =>
      html <- get_innerHTML el ;;
      if negb (String.eqb html css) then set_innerHTML el css else ret tt
  | None =>
      style <- createElement "style" ;;
      setAttribute style "id" selector ;;;
      set_innerHTML style css ;;;
      h <- document_head ;;
      match h with
      | Some hd => appendChild hd style
      | None => throw TypeError
      end
  end.

End Helpers.

(** ** src/outlineCSS.js *)

Module OutlineCSS.

Definition nl : string := String (ascii_of_nat 10) EmptyString.

(** The rules of the template literal, in order: element name and
    outline colour. *)
Definition rules : list (string * string) :=
[ ("body", "2980b9"); ("article", "3498db"); ("nav", "0088c3"); ("aside", "33a0ce")
; ("section", "66b8da"); ("header", "99cfe7"); ("footer", "cce7f3"); ("h1", "162544")
; ("h2", "314e6e"); ("h3", "3e5e85"); ("h4", "449baf"); ("h5", "c7d1cb")
; ("h6", "4371d0"); ("main", "2f4f90"); ("address", "1a2c51"); ("div", "036cdb")
; ("p", "ac050b"); ("hr", "ff063f"); ("pre", "850440"); ("blockquote", "f1b8e7")
; ("ol", "ff050c"); ("ul", "d90416"); ("li", "d90416"); ("dl", "fd3427")
; ("dt", "ff0043"); ("dd", "e80174"); ("figure", "ff00bb"); ("figcaption", "bf0032")
; ("table", "00cc99"); ("caption", "37ffc4"); ("thead", "98daca"); ("tbody", "64a7a0")
; ("tfoot", "22746b"); ("tr", "86c0b2"); ("th", "a1e7d6"); ("td", "3f5a54")
; ("col", "6c9a8f"); ("colgroup", "6c9a9d"); ("button", "da8301"); ("datalist", "c06000")
; ("fieldset", "d95100"); ("form", "d23600"); ("input", "fca600"); ("keygen", "b31e00")
; ("label", "ee8900"); ("legend", "de6d00"); ("meter", "e8630c"); ("optgroup", "b33600")
; ("option", "ff8a00"); ("output", "ff9619"); ("progress", "e57c00"); ("select", "e26e0f")
; ("textarea", "cc5400"); ("details", "33848f"); ("summary", "60a1a6"); ("command", "438da1")
; ("menu", "449da6"); ("del", "bf0000"); ("ins", "400000"); ("img", "22746b")
; ("iframe", "64a7a0"); ("embed", "98daca"); ("object", "00cc99"); ("param", "37ffc4")
; ("video", "6ee866"); ("audio", "027353"); ("source", "012426"); ("canvas", "a2f570")
; ("track", "59a600"); ("map", "7be500"); ("area", "305900"); ("a", "ff62ab")
; ("em", "800b41"); ("strong", "ff1583"); ("i", "803156"); ("b", "cc1169")
; ("u", "ff0430"); ("s", "f805e3"); ("small", "d107b2"); ("abbr", "4a0263")
; ("q", "240018"); ("cite", "64003c"); ("dfn", "b4005a"); ("sub", "dba0c8")
; ("sup", "cc0256"); ("time", "d6606d"); ("code", "e04251"); ("kbd", "5e001f")
; ("samp", "9c0033"); ("var", "d90047"); ("mark", "ff0053"); ("bdi", "bf3668")
; ("bdo", "6f1400"); ("ruby", "ff7b93"); ("rt", "ff2f54"); ("rp", "803e49")
; ("span", "cc2643"); ("br", "db687d"); ("wbr", "db175b") ].

(** One rule of the template: a line break, four blanks, the selector,
    the element name and the declaration block. *)
Definition rule (selector : string) (r : string * string) : string :=
  (nl ++ "    " ++ selector ++ " " ++ fst r ++ " {" ++ nl
      ++ "      outline: 1px solid #" ++ snd r ++ " !important;" ++ nl
      ++ "    }")%string.

Definition outlineCSS (selector : string) : string :=
  String.concat EmptyString (map (rule selector) rules).

End OutlineCSS.

(** ** src/withGlobals.js *)

Module WithGlobals.
Import Dom Js DomApi Helpers OutlineCSS.

Inductive value :=
| VUndefined
| VBool (b : bool)
| VString (s : string)
| VObject
| VFunction.

(** JavaScript's [ToBoolean], as used by [!isActive]. *)
Definition truthy (v : value) : bool :=
  match v with
  | VUndefined => false
  | VBool b => b
  | VString s => negb (String.eqb s "")
  | VObject => true
  | VFunction => true
  end.

(** Strict equality [===] on the values above; two objects or functions
    of the model are never told apart. *)
Definition strict_eqb (v w : value) : bool :=
  match v, w with
  | VUndefined, VUndefined => true
  | VBool a, VBool b => Bool.eqb a b
  | VString s, VString t => String.eqb s t
  | VObject, VObject => true
  | VFunction, VFunction => true
  | _, _ => false
  end.

(** The bindings an identifier is resolved against, innermost first. *)
Definition scope := list (string * value).

Fixpoint lookup (x : string) (sc : scope) : option value :=
  match sc with
  | [] => None
  | (y, v) :: sc' => if String.eqb x y then Some v else lookup x sc'
  end.

(** Reading the identifier [x]: a [ReferenceError] when nothing binds
    it. *)
Definition identifier (sc : scope) (x : string) : M value :=
  match lookup x sc with
  | Some v => ret v
  | None => throw ReferenceError
  end.

Record context := mkContext { viewMode : string; id : string }.

Record globals := mkGlobals { outlineActive : value }.

(** What the hook library of [@storybook/addons] remembers between two
    calls of the decorator: the memoised value with its dependencies,
    the dependencies of the last effect run and the clean-up it
    returned. *)
Record hooks := mkHooks {
  memo : option (list value * string);
  effect_deps : option (list value);
  destroy : option (M unit)
}.

Definition no_hooks : hooks := mkHooks None None None.

(** A call of the generator from a script. *)
Definition call_outlineCSS (selector : string) : M string :=
  ret (outlineCSS selector).

Fixpoint deps_eqb (a b : list value) : bool :=
  match a, b with
  | [], [] => true
  | v :: a', w :: b' => strict_eqb v w && deps_eqb a' b'
  | _, _ => false
  end.

(** [useMemo(create, deps)] *)
Definition useMemo (create : unit -> M string) (deps : list value) (h : hooks)
  : M (string * hooks) :=
  match memo h with
  | Some (old, v) =>
      if deps_eqb old deps then ret (v, h)
      else v' <- create tt ;;
           ret (v', mkHooks (Some (deps, v')) (effect_deps h) (destroy h))
  | None =>
      v' <- create tt ;;
      ret (v', mkHooks (Some (deps, v')) (effect_deps h) (destroy h))
  end.

Definition run_destroy (h : hooks) : M unit :=
  match destroy h with
  | Some cleanup => cleanup
  | None => ret tt
  end.

(** [useEffect(create, deps)]: when a dependency changed, the clean-up
    of the previous run is called and then [create], whose result is the
    next clean-up.  The library runs effects once the decorator has
    returned; the decorator touches the document nowhere else, so the
    effect is run here at once. *)
Definition useEffect (create : M (option (M unit))) (deps : list value) (h : hooks)
  : M hooks :=
  let changed :=
    match effect_deps h with
    | Some old => negb (deps_eqb old deps)
    | None => true
    end in
  if changed then
    run_destroy h ;;;
    cleanup <- create ;;
    ret (mkHooks (memo h) (Some deps) cleanup)
  else ret h.

(** The story leaves the page: the pending clean-up runs. *)
Definition teardown (h : hooks) : M unit := run_destroy h.

(** The bindings of the module: its imports and its export. *)
Definition module_scope : scope :=
  [ ("useEffect", VFunction); ("useMemo", VFunction); ("useGlobals", VFunction)
  ; ("clearStyles", VFunction); ("addOutlineStyles", VFunction)
  ; ("outlineCSS", VFunction); ("withGlobals", VFunction) ].

(** The callback given to [useEffect]. *)
Definition effect (sc : scope) (isInDocs : bool) (ctx : context) (outlineStyles : string)
  : M (option (M unit)) :=
  let selectorId :=
    if isInDocs then ("addon-outline-docs-" ++ id ctx)%string else "addon-outline" in
  isActive <- identifier sc "isActive" ;;
  if negb (truthy isActive) then
    clearStyles (One selectorId) ;;;
    ret None
  else
    addOutlineStyles selectorId outlineStyles ;;;
    ret (Some (clearStyles (One selectorId))).

(** The decorator, second version of the chapter.  [window] holds the
    bindings of the global object, [g] what [useGlobals] returns. *)
Definition withGlobals (window : scope) (ctx : context) (g : globals) (h : hooks)
  : M hooks :=
  let isInDocs := String.eqb (viewMode ctx) "docs" in
  r <- useMemo
         (fun _ =>
            let selector :=
              if isInDocs then ("#anchor--" ++ id ctx ++ " .docs-story")%string
              else ".sb-show-main" in
            call_outlineCSS selector)
         [VString (id ctx)] h ;;
  let outlineStyles := fst r in
  let sc :=
    [ ("StoryFn", VFunction); ("context", VObject)
    ; ("outlineActive", outlineActive g); ("updateGlobals", VFunction)
    ; ("isInDocs", VBool isInDocs); ("outlineStyles", VString outlineStyles) ]
    ++ module_scope ++ window in
  (* the dependency array [isActive, outlineStyles, context.id] *)
  isActive <- identifier sc "isActive" ;;
  useEffect (effect sc isInDocs ctx outlineStyles)
    [isActive; VString outlineStyles; VString (id ctx)] (snd r).

End WithGlobals.

(** ** The style registry read off the document *)

Module Registry.
Import Dom Js DomApi Helpers.

(** The style blocks registered under the key [k], in tree order: the
    attached elements whose ID is [k]. *)
Definition blocks (k : string) (d : document) : list node :=
  filter (has_id d k) (tree d).

(** The text of the block [n]. *)
Definition content (d : document) (n : node) : option string :=
  option_map text (deref d n).

(** At most one style block per key. *)
Definition invariant (d : document) : Prop :=
  forall k, List.length (blocks k d) <= 1.

(** References in the tree are distinct and point into the store. *)
Definition wf (d : document) : Prop :=
  NoDup (tree d) /\ Forall (fun n => n < List.length (objects d)) (tree d).

(** The presentation surface, [document.head], can be located. *)
Definition available (d : document) : Prop := head d <> None.

(** The id under which the element [n] is found, if any. *)
Definition id_of (d : document) (n : node) : option string :=
  match deref d n with
  | Some e => elem_id e
  | None => None
  end.

Definition ids (d : document) : list (option string) := map (id_of d) (tree d).

(** The attached elements whose [id] attribute is [k], the empty string
    included. *)
Definition carries (d : document) (k : string) (n : node) : bool :=
  match id_of d n with
  | Some i => String.eqb i k
  | None => false
  end.

Definition carrying (k : string) (d : document) : list node :=
  filter (carries d k) (tree d).


Fixpoint nodupb {A} (eqb : A -> A -> bool) (l : list A) : bool :=
  match l with
  | [] => true
  | x :: l' => negb (existsb (eqb x) l') && nodupb eqb l'
  end.

(** Two attached elements carry the same id. *)
Definition same_id (a b : option string) : bool :=
  match a, b with
  | Some i, Some j => String.eqb i j
  | _, _ => false
  end.

Definition invariantb (d : document) : bool := nodupb same_id (ids d).

Definition wfb (d : document) : bool :=
  nodupb Nat.eqb (tree d) && forallb (fun n => Nat.ltb n (List.length (objects d))) (tree d).

(** The element [addOutlineStyles] creates for the key [k]. *)
Definition fresh_style (k t : string) : element :=
  mkElement "style" (Some k) (rawtext t).

(** The element [n] is a [style] element. *)
Definition is_style (d : document) (n : node) : Prop :=
  option_map tagName (deref d n) = Some "style".

(** What [innerHTML] of the element [n] reads. *)
Definition read (d : document) (n : node) : option string :=
  option_map serialize (deref d n).

(** The block [n] holds what the parser makes of the text [t], or it
    reads as [t]: the two states in which [addOutlineStyles] leaves the
    block it has found. *)
Definition holds (t : string) (d : document) (n : node) : Prop :=
  content d n = Some (rawtext t) \/
  exists e, deref d n = Some e /\ serialize e = t.

(** [apply] and [clear] of the registry are the two exported helpers. *)
Definition apply (k t : string) : M unit := addOutlineStyles k t.
Definition clear (k : string) : M unit := clearStyles (One k).

(** One operation of the registry on the document. *)
Inductive step : document -> document -> Prop :=
| step_apply k t d : step d (exec (apply k t) d)
| step_clear sel d : step d (exec (clearStyles sel) d).

(** Any number of operations, one after the other. *)
Inductive steps : document -> document -> Prop :=
| steps_refl d : steps d d
| steps_step d d' d'' : steps d d' -> step d' d'' -> steps d d''.



(** The documents the helpers can produce from the initial one. *)
Definition reachable (d : document) : Prop := steps empty_document d.

(** Clearing the keys of a list one call at a time. *)
Definition clear_each (ks : list string) (d : document) : document :=
  fold_left (fun s k => exec (clear k) s) ks d.

End Registry.

(** ** Sample documents *)

Module Samples.
Import Dom Js Registry.

Definition red : string := "body{outline:1px solid red}".
Definition blue : string := "body{outline:1px solid blue}".

(** A preview in story mode with the outline on, next to a block that
    belongs to a story of a docs page. *)
Definition outlined : document :=
  mkDocument
    [ mkElement "style" (Some "addon-outline") red
    ; mkElement "style" (Some "addon-outline-docs-button--primary") blue ]
    (Some [0; 1]) [].

(** A document without a head whose body holds a style block. *)
Definition headless : document :=
  mkDocument [ mkElement "style" (Some "addon-outline") red ] None [0].

(** Two style blocks with the same id, as a page served with both
    would have. *)
Definition duplicated : document :=
  mkDocument
    [ mkElement "style" (Some "addon-outline") red
    ; mkElement "style" (Some "addon-outline") blue ]
    (Some [0; 1]) [].




(** A document without a head and without any block. *)
Definition bare : document := mkDocument [] None [].

End Samples.

(** ** Relations between documents *)

Module Relations.
Import Dom Js Registry.

(** What clearing may change: the store and the presence of a head stay,
    attached elements stay attached or are dropped, and no key gains a
    block. *)
Definition shrinks (d d' : document) : Prop :=
  objects d' = objects d /\
  (head d' = None <-> head d = None) /\
  (forall n, In n (tree d') -> In n (tree d)) /\
  (forall k, List.length (blocks k d') <= List.length (blocks k d)).

End Relations.

(** ** The first version of src/withGlobals.js: the tool state on the page

    The first decorator of the chapter writes the state of the tool into a
    [pre] element of the preview.  It searches below an element, so the
    page is modelled as a tree: element objects carry a reference, the
    attached ones form the document, the others are kept aside until they
    are attached. *)

Module Preview.

Inductive html :=
| Text (data : string)
| Elem (ref : nat) (tagName : string) (id : option string)
       (style : list (string * string)) (childNodes : forest)
with forest :=
| Nil
| Cons (n : html) (rest : forest).

Scheme html_mut := Induction for html Sort Prop
with forest_mut := Induction for forest Sort Prop.
Combined Scheme html_forest_ind from html_mut, forest_mut.

Record page := mkPage {
  document : forest;        (* the nodes of the document *)
  detached : forest;        (* element objects that are not attached *)
  next : nat                (* the reference of the next element object *)
}.

(** *** Searching the tree *)

(** A test on the reference, the tag and the id of an element. *)
Definition test := nat -> string -> option string -> bool.

(** An empty [id] attribute gives an element no ID, and nothing is found
    under the empty string. *)
Definition is_id (sel : string) : test :=
  fun _ _ i =>
    match i with
    | Some x => negb (String.eqb sel "") && String.eqb x sel
    | None => false
    end.

Definition is_tag (t : string) : test := fun _ tg _ => String.eqb tg t.

Definition is_ref (r : nat) : test := fun r' _ _ => Nat.eqb r' r.

(** The first element in tree order that passes the test. *)
Fixpoint find (p : test) (n : html) : option html :=
  match n with
  | Text _ => None
  | Elem r tg i st ks => if p r tg i then Some n else find_forest p ks
  end
with find_forest (p : test) (f : forest) : option html :=
  match f with
  | Nil => None
  | Cons n rest =>
      match find p n with
      | Some x => Some x
      | None => find_forest p rest
      end
  end.

Definition found_ref (o : option html) : option nat :=
  match o with
  | Some (Elem r _ _ _ _) => Some r
  | _ => None
  end.

(** The references of the elements of a tree, in tree order. *)
Fixpoint refs (n : html) : list nat :=
  match n with
  | Text _ => []
  | Elem r _ _ _ ks => r :: refs_forest ks
  end
with refs_forest (f : forest) : list nat :=
  match f with
  | Nil => []
  | Cons n rest => refs n ++ refs_forest rest
  end.

(** The element object a reference stands for. *)
Definition lookup (r : nat) (pg : page) : option html :=
  match find_forest (is_ref r) (document pg) with
  | Some n => Some n
  | None => find_forest (is_ref r) (detached pg)
  end.

(** *** Changing the tree *)

(** [update r g] applies [g] to the element with the reference [r]. *)
Fixpoint update (r : nat) (g : html -> html) (n : html) : html :=
  match n with
  | Text s => Text s
  | Elem r' tg i st ks =>
      if Nat.eqb r' r then g n else Elem r' tg i st (update_forest r g ks)
  end
with update_forest (r : nat) (g : html -> html) (f : forest) : forest :=
  match f with
  | Nil => Nil
  | Cons n rest => Cons (update r g n) (update_forest r g rest)
  end.

(** [prune r] takes the element with the reference [r] out, with all that
    is below it. *)
Fixpoint prune (r : nat) (f : forest) : forest :=
  match f with
  | Nil => Nil
  | Cons n rest =>
      match n with
      | Text _ => Cons n (prune r rest)
      | Elem r' tg i st ks =>
          if Nat.eqb r' r then prune r rest
          else Cons (Elem r' tg i st (prune r ks)) (prune r rest)
      end
  end.

Fixpoint snoc (f : forest) (n : html) : forest :=
  match f with
  | Nil => Cons n Nil
  | Cons k rest => Cons k (snoc rest n)
  end.

Definition add_child (c : html) (n : html) : html :=
  match n with
  | Text s => Text s
  | Elem r tg i st ks => Elem r tg i st (snoc ks c)
  end.

Definition with_children (ks : forest) (n : html) : html :=
  match n with
  | Text s => Text s
  | Elem r tg i st _ => Elem r tg i st ks
  end.

(** A declaration block after [setProperty(name, value)]: the value of a
    property that is there is replaced, a new property comes last. *)
Fixpoint set_declaration (name value : string) (st : list (string * string))
  : list (string * string) :=
  match st with
  | [] => [(name, value)]
  | (n, v) :: st' =>
      if String.eqb n name then (n, value) :: st'
      else (n, v) :: set_declaration name value st'
  end.

Definition with_declaration (name value : string) (n : html) : html :=
  match n with
  | Text s => Text s
  | Elem r tg i st ks => Elem r tg i (set_declaration name value st) ks
  end.

(** *** What [innerText = s] puts below an element

    The text is cut at its line breaks (LF, CR or CR LF); every line that
    is not empty becomes a text node and every line break a [br]
    element. *)

Inductive piece := Line (text : string) | Break.

Definition LF : ascii := ascii_of_nat 10.
Definition CR : ascii := ascii_of_nat 13.

Definition flush (line : string) : list piece :=
  match line with
  | EmptyString => []
  | _ => [Line line]
  end.

Fixpoint pieces (line : string) (s : string) : list piece :=
  match s with
  | EmptyString => flush line
  | String c s' =>
      if Ascii.eqb c LF then flush line ++ Break :: pieces EmptyString s'
      else if Ascii.eqb c CR then
        flush line ++ Break ::
          match s' with
          | String c' s'' =>
              if Ascii.eqb c' LF then pieces EmptyString s'' else pieces EmptyString s'
          | EmptyString => pieces EmptyString s'
          end
      else pieces (line ++ String c EmptyString) s'
  end.

(** The nodes for a list of pieces; the [br] elements take the
    references from [r] on. *)
Fixpoint fragment (r : nat) (ps : list piece) : forest :=
  match ps with
  | [] => Nil
  | Line s :: ps' => Cons (Text s) (fragment r ps')
  | Break :: ps' => Cons (Elem r "br" None [] Nil) (fragment (S r) ps')
  end.

Definition breaks (ps : list piece) : nat :=
  List.length (filter (fun p => match p with Break => true | Line _ => false end) ps).

(** *** Scripts on the page *)

Inductive error := TypeError | HierarchyRequestError.

Inductive result (A : Type) :=
| Ok (a : A)
| Raise (e : error).
Arguments Ok {A} a.
Arguments Raise {A} e.

Definition P (A : Type) := page -> result A * page.

Definition ret {A} (a : A) : P A := fun pg => (Ok a, pg).

Definition raise {A} (e : error) : P A := fun pg => (Raise e, pg).

Definition bind {A B} (m : P A) (k : A -> P B) : P B :=
  fun pg =>
    match m pg with
    | (Ok a, pg') => k a pg'
    | (Raise e, pg') => (Raise e, pg')
    end.

Definition gets {A} (f : page -> A) : P A := fun pg => (Ok (f pg), pg).

Definition modify (f : page -> page) : P unit := fun pg => (Ok tt, f pg).

Declare Scope page_scope.
Delimit Scope page_scope with page.
Notation "x <- m ;; k" := (bind m (fun x => k))
  (at level 61, m at next level, right associativity) : page_scope.
Notation "m ;;; k" := (bind m (fun _ => k))
  (at level 61, right associativity) : page_scope.
Local Open Scope page_scope.

(** [document.getElementById(sel)] *)
Definition getElementById (sel : string) : P (option nat) :=
  gets (fun pg => found_ref (find_forest (is_id sel) (document pg))).

(** [root.querySelector(tag)] for a type selector: the first element
    below [root], [root] itself excluded, with that tag. *)
Definition querySelector (root : nat) (tag : string) : P (option nat) :=
  gets (fun pg =>
    match lookup root pg with
    | Some (Elem _ _ _ _ ks) => found_ref (find_forest (is_tag tag) ks)
    | _ => None
    end).

(** [document.createElement(tag)] *)
Definition createElement (tag : string) : P nat :=
  fun pg =>
    (Ok (next pg),
     mkPage (document pg) (snoc (detached pg) (Elem (next pg) tag None [] Nil))
       (S (next pg))).

Definition update_page (r : nat) (g : html -> html) (pg : page) : page :=
  mkPage (update_forest r g (document pg)) (update_forest r g (detached pg)) (next pg).

(** [el.style.setProperty(name, value)]: the declaration is recorded
    with the value the script gave; how the engine writes the value (a
    colour, a shorthand) is not modelled, and no property below reads
    it. *)
Definition style_setProperty (el : nat) (name value : string) : P unit :=
  modify (update_page el (with_declaration name value)).

(** [parent.appendChild(child)]: [child] leaves the place it had and
    becomes the last child of [parent]; a [HierarchyRequestError] when
    [parent] is [child] or lies below it. *)
Definition appendChild (parent child : nat) : P unit :=
  fun pg =>
    match lookup child pg, lookup parent pg with
    | Some c, Some _ =>
        match find (is_ref parent) c with
        | Some _ => (Raise HierarchyRequestError, pg)
        | None =>
            (Ok tt,
             update_page parent (add_child c)
               (mkPage (prune child (document pg)) (prune child (detached pg)) (next pg)))
        end
    | _, _ => (Raise TypeError, pg)
    end.

(** [el.innerText = s] *)
Definition set_innerText (el : nat) (s : string) : P unit :=
  fun pg =>
    let ps := pieces EmptyString s in
    (Ok tt,
     update_page el (with_children (fragment (next pg) ps))
       (mkPage (document pg) (detached pg) (next pg + breaks ps))).

(** *** The state and its text *)

(** The object [{ outlineActive, isInDocs }]; the global is a boolean once
    the tool has been used and [undefined] ([None]) before. *)
Record tool_state := mkState { outlineActive : option bool; isInDocs : bool }.

Definition nl : string := String LF EmptyString.

Definition quote : string := String (ascii_of_nat 34) EmptyString.

Definition JSON_boolean (b : bool) : string := if b then "true" else "false".

(** The members [JSON.stringify] keeps: a property whose value is
    [undefined] is left out. *)
Definition members (state : tool_state) : list (string * string) :=
  match outlineActive state with
  | Some b => [("outlineActive", JSON_boolean b)]
  | None => []
  end ++ [("isInDocs", JSON_boolean (isInDocs state))].

(** [JSON.stringify(state, null, 2)] *)
Definition JSON_stringify (state : tool_state) : string :=
  ("{" ++ nl
   ++ String.concat ("," ++ nl)
        (map (fun m => "  " ++ quote ++ fst m ++ quote ++ ": " ++ snd m) (members state))
   ++ nl ++ "}")%string.

(** The character U+26A1, in UTF-8. *)
Definition high_voltage : string :=
  String (ascii_of_nat 226) (String (ascii_of_nat 154) (String (ascii_of_nat 161) EmptyString)).

Definition message (state : tool_state) : string :=
  ("This snippet is injected by the withGlobals decorator." ++ nl
   ++ "It updates as the user interacts with the " ++ high_voltage
   ++ " tool in the toolbar above." ++ nl
   ++ JSON_stringify state ++ nl)%string.

(** *** The script *)

Definition displayToolState (selector : string) (state : tool_state) : P unit :=
  rootElement <- getElementById selector ;;
  match rootElement with
  | None => raise TypeError                       (* null.querySelector *)
  | Some root =>
      found <- querySelector root "pre" ;;
      preElement <-
        match found with
        | Some pre => ret pre
        | None =>
            pre <- createElement "pre" ;;
            style_setProperty pre "margin-top" "2rem" ;;;
            style_setProperty pre "padding" "1rem" ;;;
            style_setProperty pre "background-color" "#eee" ;;;
            style_setProperty pre "border-radius" "3px" ;;;
            style_setProperty pre "max-width" "600px" ;;;
            appendChild root pre ;;;
            ret pre
        end ;;
      set_innerText preElement (message state)
  end.

(** The dependencies of the last run of the effect, as the hook library
    keeps them; [None] before the first run. *)
Definition effect_hook := option (option bool).

Definition same_deps (old new : option bool) : bool :=
  match old, new with
  | None, None => true
  | Some a, Some b => Bool.eqb a b
  | _, _ => false
  end.

(** [useEffect(create, [outlineActive])]; the callback returns no
    clean-up.  The hook library remembers the dependency at once and keeps
    the callback, when the dependency changed, to run it once the story is
    rendered.  The hook state holds the dependency only: that the library
    runs an effect again after it has thrown, the dependency being the
    same, is not recorded, and no property below is about a call that
    follows a throw. *)
Definition useEffect (create : P unit) (dep : option bool) (h : effect_hook)
  : effect_hook * option (P unit) :=
  let changed :=
    match h with
    | Some old => negb (same_deps old dep)
    | None => true
    end in
  if changed then (Some dep, Some create) else (h, None).

(** The decorator: [toggle] is the [outlineActive] that [useGlobals]
    returns.  It gives back the result of [StoryFn()], the hook and the
    effect that is to run. *)
Definition withGlobals {A} (StoryFn : unit -> A) (ctx : WithGlobals.context)
  (toggle : option bool) (h : effect_hook) : A * (effect_hook * option (P unit)) :=
  let isInDocs := String.eqb (WithGlobals.viewMode ctx) "docs" in
  let registered :=
    useEffect
      (let selectorId :=
         if isInDocs then ("#anchor--" ++ WithGlobals.id ctx ++ " .docs-story")%string
         else "root" in
       displayToolState selectorId (mkState toggle isInDocs))
      toggle h in
  (StoryFn tt, registered).

(** The hook library after the story is rendered: the effect that was
    kept runs. *)
Definition triggerEffects (pending : option (P unit)) : P unit :=
  match pending with
  | Some create => create
  | None => ret tt
  end.

(** One run of a script for each element of a list, in order. *)
Fixpoint each {A} (f : A -> P unit) (l : list A) : P unit :=
  match l with
  | [] => ret tt
  | x :: l' => f x ;;; each f l'
  end.

(** *** Well-formed pages *)

(** Every element object has a reference of its own, below [next]. *)
Definition wf (pg : page) : Prop :=
  NoDup (refs_forest (document pg) ++ refs_forest (detached pg)) /\
  Forall (fun r => r < next pg) (refs_forest (document pg) ++ refs_forest (detached pg)).

Definition has_blank (s : string) : bool :=
  existsb (fun c => Ascii.eqb c " "%char) (list_ascii_of_string s).

(** No id of the tree contains a blank, as HTML requires. *)
Fixpoint plain_ids (n : html) : bool :=
  match n with
  | Text _ => true
  | Elem _ _ i _ ks =>
      match i with Some x => negb (has_blank x) | None => true end
      && plain_ids_forest ks
  end
with plain_ids_forest (f : forest) : bool :=
  match f with
  | Nil => true
  | Cons n rest => plain_ids n && plain_ids_forest rest
  end.

(** [g] changes at most the declarations and the children of an element. *)
Definition keeps (g : html -> html) : Prop :=
  forall r tg i st ks, exists st' ks', g (Elem r tg i st ks) = Elem r tg i st' ks'.

(** The element object [root.querySelector(tag)] finds. *)
Definition below (root : nat) (tag : string) (pg : page) : option html :=
  match lookup root pg with
  | Some (Elem _ _ _ _ ks) => find_forest (is_tag tag) ks
  | _ => None
  end.

(** The declarations [displayToolState] gives the element it creates. *)
Definition pre_style : list (string * string) :=
  [ ("margin-top", "2rem"); ("padding", "1rem"); ("background-color", "#eee")
  ; ("border-radius", "3px"); ("max-width", "600px") ].

Definition outcome {A} (m : P A) (pg : page) : result A := fst (m pg).

Definition exec {A} (m : P A) (pg : page) : page := snd (m pg).

(** A preview in story mode: the story, a button, below the root. *)
Definition story_page : page :=
  mkPage
    (Cons (Elem 0 "html" None []
       (Cons (Elem 1 "head" None [] Nil)
       (Cons (Elem 2 "body" None []
          (Cons (Elem 3 "div" (Some "root") []
             (Cons (Elem 4 "button" None [] (Cons (Text "Click") Nil)) Nil))
           Nil))
        Nil)))
     Nil)
    Nil 5.

(** A preview whose story renders a [pre] of its own. *)
Definition code_page : page :=
  mkPage
    (Cons (Elem 0 "html" None []
       (Cons (Elem 1 "body" None []
          (Cons (Elem 2 "div" (Some "root") []
             (Cons (Elem 3 "pre" (Some "sample") [("color", "navy")]
                (Cons (Text "npm start") Nil)) Nil))
           Nil))
        Nil))
     Nil)
    Nil 4.

End Preview.

(** * Properties *)

Import Dom Js DomApi Helpers OutlineCSS WithGlobals Registry.

(** ** Lists, the object store and the tree *)

Section StoreFacts.

Lemma update_length (l : list element) n e :
  List.length (update l n e) = List.length l.
Proof.
  revert n; induction l as [|x l IH]; intros [|n]; simpl; auto.
Qed.

Lemma nth_error_update_eq (l : list element) n e x :
  nth_error l n = Some x -> nth_error (update l n e) n = Some e.
Proof.
  revert n; induction l as [|y l IH]; intros [|n]; simpl; try discriminate; auto.
Qed.

Lemma nth_error_update_ne (l : list element) n m e :
  n <> m -> nth_error (update l n e) m = nth_error l m.
Proof.
  revert n m; induction l as [|y l IH]; intros [|n] [|m] H; simpl; auto.
  - congruence.
Qed.

Lemma nth_error_app_last (l : list element) x :
  nth_error (l ++ [x]) (List.length l) = Some x.
Proof. induction l; simpl; auto. Qed.

Lemma update_app_last (l : list element) x y :
  update (l ++ [x]) (List.length l) y = l ++ [y].
Proof. induction l; simpl; congruence. Qed.

Lemma mem_true_iff n l : mem n l = true <-> In n l.
Proof.
  unfold mem; rewrite existsb_exists; split.
  - intros (x & Hx & E); apply Nat.eqb_eq in E; subst; assumption.
  - intros H; exists n; split; [assumption | apply Nat.eqb_refl].
Qed.

Lemma mem_false_iff n l : mem n l = false <-> ~ In n l.
Proof.
  rewrite <- mem_true_iff; destruct (mem n l); split; intros; congruence.
Qed.

Lemma remove_node_notin n l : ~ In n l -> remove_node n l = l.
Proof.
  induction l as [|x l IH]; simpl; intros H; auto.
  destruct (Nat.eqb_spec n x) as [->|_].
  - exfalso; apply H; now left.
  - f_equal; apply IH; intros Hn; apply H; now right.
Qed.

Lemma remove_node_app_l n l1 l2 :
  In n l1 -> remove_node n (l1 ++ l2) = remove_node n l1 ++ l2.
Proof.
  induction l1 as [|x l1 IH]; simpl; intros H; [contradiction|].
  destruct (Nat.eqb_spec n x) as [->|Hne]; auto.
  destruct H as [->|H]; [congruence|].
  now rewrite IH.
Qed.

Lemma remove_node_app_r n l1 l2 :
  ~ In n l1 -> remove_node n (l1 ++ l2) = l1 ++ remove_node n l2.
Proof.
  induction l1 as [|x l1 IH]; simpl; intros H; auto.
  destruct (Nat.eqb_spec n x) as [->|Hne].
  - exfalso; apply H; now left.
  - f_equal; apply IH; intros Hn; apply H; now right.
Qed.

Lemma In_remove_node n m l : In m (remove_node n l) -> In m l.
Proof.
  induction l as [|x l IH]; simpl; auto.
  destruct (Nat.eqb n x); simpl; intuition.
Qed.

Lemma NoDup_remove_node n l : NoDup l -> NoDup (remove_node n l).
Proof.
  induction 1 as [|x l Hx Hl IH]; simpl; [constructor|].
  destruct (Nat.eqb n x); auto.
  constructor; auto. intros Hin; apply Hx; eapply In_remove_node; eauto.
Qed.

Lemma filter_remove_node (f : node -> bool) n l :
  f n = true -> filter f (remove_node n l) = remove_node n (filter f l).
Proof.
  intros Hn; induction l as [|x l IH]; simpl; auto.
  destruct (Nat.eqb_spec n x) as [->|Hne].
  - rewrite Hn; simpl; now rewrite Nat.eqb_refl.
  - simpl; destruct (f x); simpl; rewrite ?IH; auto.
    destruct (Nat.eqb_spec n x); congruence.
Qed.

Lemma filter_remove_node_other (f : node -> bool) n l :
  f n = false -> filter f (remove_node n l) = filter f l.
Proof.
  intros Hn; induction l as [|x l IH]; simpl; auto.
  destruct (Nat.eqb_spec n x) as [->|Hne].
  - now rewrite Hn.
  - simpl; now rewrite IH.
Qed.

Lemma find_hd_filter (f : node -> bool) l : find f l = hd_error (filter f l).
Proof.
  induction l as [|x l IH]; simpl; auto. destruct (f x); auto.
Qed.

Lemma remove_node_hd n l : hd_error l = Some n -> remove_node n l = tl l.
Proof.
  destruct l as [|x l]; simpl; [discriminate|].
  intros [= ->]; now rewrite Nat.eqb_refl.
Qed.

Lemma update_same (l : list element) n e :
  nth_error l n = Some e -> update l n e = l.
Proof.
  revert n; induction l as [|x l IH]; intros [|n]; simpl; try discriminate.
  - now intros [= ->].
  - intros H; f_equal; auto.
Qed.

Lemma rawtext_plain s : plain s = true -> rawtext s = s.
Proof.
  induction s as [|c s IH]; simpl; auto.
  unfold plain_char; rewrite andb_true_iff, negb_true_iff; intros [Hc Hs].
  destruct (Ascii.eqb c CR); [discriminate|]. now rewrite IH.
Qed.

Lemma filter_ext_on (f g : node -> bool) l :
  (forall n, In n l -> f n = g n) -> filter f l = filter g l.
Proof.
  induction l as [|x l IH]; simpl; intros H; auto.
  rewrite (H x) by now left.
  rewrite IH by (intros; apply H; now right). reflexivity.
Qed.

End StoreFacts.

(** ** Ids and blocks *)

Section BlockFacts.

Lemma has_id_id_of d k n :
  has_id d k n =
  match id_of d n with
  | Some i => negb (String.eqb k "") && String.eqb i k
  | None => false
  end.
Proof. unfold has_id, id_of; destruct (deref d n); reflexivity. Qed.

Lemma has_id_carries d k n :
  has_id d k n = negb (String.eqb k "") && carries d k n.
Proof.
  rewrite has_id_id_of; unfold carries; destruct (id_of d n); auto.
  now rewrite andb_false_r.
Qed.

Lemma has_id_true d k n :
  has_id d k n = true <-> k <> "" /\ id_of d n = Some k.
Proof.
  rewrite has_id_id_of; destruct (id_of d n) as [i|].
  - rewrite andb_true_iff, negb_true_iff, String.eqb_neq, String.eqb_eq.
    split; intros [H1 H2]; split; congruence.
  - split; [discriminate | intros [_ H]; discriminate].
Qed.

Lemma has_id_empty d n : has_id d "" n = false.
Proof. rewrite has_id_id_of; destruct (id_of d n); reflexivity. Qed.

Lemma has_id_other d k k' n : has_id d k n = true -> k' <> k -> has_id d k' n = false.
Proof.
  intros H Hne. apply has_id_true in H; destruct H as [_ H].
  rewrite has_id_id_of, H. apply andb_false_iff; right.
  apply String.eqb_neq; congruence.
Qed.

Lemma has_id_deref d k n :
  has_id d k n = true -> exists e, deref d n = Some e /\ elem_id e = Some k.
Proof.
  intros H; apply has_id_true in H; destruct H as [_ H]; unfold id_of in H.
  destruct (deref d n) as [e|]; [eauto | discriminate].
Qed.


Lemma blocks_carrying k d : k <> "" -> blocks k d = carrying k d.
Proof.
  intros Hk; unfold blocks, carrying; apply filter_ext_on; intros n _.
  rewrite has_id_carries. apply String.eqb_neq in Hk; now rewrite Hk.
Qed.

Lemma getElementById_empty d : getElementById "" d = None.
Proof.
  unfold getElementById; induction (tree d) as [|x l IH]; simpl; auto.
  now rewrite has_id_empty.
Qed.

Lemma getElementById_blocks k d : getElementById k d = hd_error (blocks k d).
Proof. apply find_hd_filter. Qed.

Lemma getElementById_Some k d n :
  getElementById k d = Some n -> In n (tree d) /\ has_id d k n = true.
Proof. intros H; apply find_some in H; exact H. Qed.

Lemma getElementById_None k d : getElementById k d = None <-> blocks k d = [].
Proof.
  rewrite getElementById_blocks; destruct (blocks k d); simpl; split; congruence.
Qed.

(** Two documents with the same tree whose attached elements carry the
    same ids hold the same blocks. *)
Lemma blocks_same_ids k d d' :
  tree d' = tree d ->
  (forall n, In n (tree d) -> id_of d' n = id_of d n) ->
  blocks k d' = blocks k d.
Proof.
  intros Ht Hid; unfold blocks; rewrite Ht.
  apply filter_ext_on; intros n Hn.
  now rewrite !has_id_id_of, Hid.
Qed.

Lemma invariant_cases k d :
  invariant d -> blocks k d = [] \/ exists n, blocks k d = [n].
Proof.
  intros H; specialize (H k).
  destruct (blocks k d) as [|n [|m l]]; simpl in H; eauto; lia.
Qed.

End BlockFacts.

(** ** What [clearStyle] and [addOutlineStyles] do to the document *)

Section HelperFacts.

Lemma id_of_same_objects d d' n : objects d' = objects d -> id_of d' n = id_of d n.
Proof. unfold id_of, deref; now intros ->. Qed.

Lemma clearStyle_absent k d :
  getElementById k d = None -> clearStyle k d = (Normal tt, d).
Proof.
  intros H; unfold clearStyle, bind, document_getElementById, gets; now rewrite H.
Qed.

Lemma clearStyle_found k d n :
  getElementById k d = Some n ->
  exists d',
    clearStyle k d = (Normal tt, d') /\
    objects d' = objects d /\
    tree d' = remove_node n (tree d) /\
    (head d' = None <-> head d = None).
Proof.
  intros H. destruct (getElementById_Some _ _ _ H) as [Hin _].
  unfold clearStyle, bind, document_getElementById, parentElement, gets; rewrite H.
  destruct (mem n (children Head d)) eqn:Hh.
  - unfold removeChild; rewrite Hh.
    eexists; split; [reflexivity|]. apply mem_true_iff in Hh.
    assert (Hs : exists l, head d = Some l).
    { unfold children in Hh; destruct (head d); [eauto | contradiction]. }
    destruct Hs as [l Hl].
    repeat split; simpl; try congruence.
    unfold tree at 2; rewrite remove_node_app_l by assumption.
    unfold tree, children; simpl. reflexivity.
  - apply mem_false_iff in Hh.
    assert (Hb : In n (children Body d)).
    { unfold tree in Hin; apply in_app_or in Hin; tauto. }
    apply mem_true_iff in Hb; rewrite Hb.
    unfold removeChild; rewrite Hb.
    eexists; split; [reflexivity|].
    repeat split; simpl; try tauto.
    unfold tree at 2; rewrite remove_node_app_r by assumption.
    unfold tree, children; simpl. reflexivity.
Qed.

(** [clearStyle] always completes normally; it drops the first block
    under its key and leaves every other block where it is. *)
Lemma clearStyle_spec k d :
  exists d',
    clearStyle k d = (Normal tt, d') /\
    objects d' = objects d /\
    (head d' = None <-> head d = None) /\
    blocks k d' = tl (blocks k d) /\
    (forall k', k' <> k -> blocks k' d' = blocks k' d) /\
    (wf d -> wf d').
Proof.
  destruct (getElementById k d) as [n|] eqn:H.
  - destruct (clearStyle_found _ _ _ H) as (d' & Hrun & Hobj & Htree & Hhead).
    destruct (getElementById_Some _ _ _ H) as [Hin Hid].
    assert (Hext : forall k' l, filter (has_id d' k') l = filter (has_id d k') l).
    { intros k' l; apply filter_ext_on; intros m _.
      now rewrite !has_id_id_of, (id_of_same_objects _ _ m Hobj). }
    exists d'.
    split; [exact Hrun|]. split; [exact Hobj|]. split; [exact Hhead|].
    split; [|split].
    + unfold blocks at 1; rewrite Htree, Hext, filter_remove_node by assumption.
      apply remove_node_hd. now rewrite <- getElementById_blocks.
    + intros k' Hk. unfold blocks at 1; rewrite Htree, Hext.
      apply filter_remove_node_other. eapply has_id_other; eauto.
    + intros [Hnd Hb]; split.
      * rewrite Htree; apply NoDup_remove_node, Hnd.
      * rewrite Htree, Hobj.
        rewrite Forall_forall in *; intros m Hm; apply Hb.
        eapply In_remove_node; eauto.
  - exists d; rewrite (clearStyle_absent _ _ H).
    apply getElementById_None in H.
    split; [reflexivity|]. split; [reflexivity|]. split; [tauto|].
    split; [now rewrite H|]. split; auto.
Qed.

Lemma apply_existing k t d n :
  getElementById k d = Some n ->
  exists e,
    deref d n = Some e /\ elem_id e = Some k /\
    addOutlineStyles k t d =
      (Normal tt,
       if String.eqb (serialize e) t then d
       else mkDocument
              (update (objects d) n (mkElement (tagName e) (elem_id e) (rawtext t)))
              (head d) (body d)).
Proof.
  intros H. destruct (getElementById_Some _ _ _ H) as [_ Hid].
  destruct (has_id_deref _ _ _ Hid) as (e & He & Hk).
  exists e; repeat split; auto.
  unfold addOutlineStyles, bind, document_getElementById, gets; rewrite H.
  unfold get_innerHTML; rewrite He.
  destruct (String.eqb (serialize e) t); simpl; [reflexivity|].
  unfold set_innerHTML, with_object; now rewrite He.
Qed.

Lemma apply_absent k t d :
  getElementById k d = None ->
  addOutlineStyles k t d =
    match head d with
    | Some h =>
        (Normal tt,
         mkDocument (objects d ++ [fresh_style k t])
           (Some (remove_node (List.length (objects d)) h ++ [List.length (objects d)]))
           (remove_node (List.length (objects d)) (body d)))
    | None =>
        (Throw TypeError, mkDocument (objects d ++ [fresh_style k t]) None (body d))
    end.
Proof.
  intros H.
  unfold addOutlineStyles, bind, document_getElementById, gets; rewrite H.
  unfold createElement, setAttribute, set_innerHTML, with_object, deref; simpl.
  rewrite nth_error_app_last, update_app_last; simpl.
  rewrite nth_error_app_last, update_app_last; simpl.
  unfold document_head, gets; simpl.
  destruct (head d) as [h|]; simpl; [|reflexivity].
  unfold appendChild; simpl. reflexivity.
Qed.

End HelperFacts.

Section ApplyFacts.

Lemma deref_update_eq d n e x h b :
  deref d n = Some x -> deref (mkDocument (update (objects d) n e) h b) n = Some e.
Proof. unfold deref; simpl; apply nth_error_update_eq. Qed.

Lemma deref_update_ne d n m e h b :
  n <> m -> deref (mkDocument (update (objects d) n e) h b) m = deref d m.
Proof. unfold deref; simpl; apply nth_error_update_ne. Qed.

(** An escaped text that is plain was plain before escaping. *)
Lemma escape_plain s t : plain t = true -> escape s = t -> s = t.
Proof.
  revert t; induction s as [|c s IH]; intros t Ht; simpl; auto.
  destruct (Ascii.eqb c "&"); [intros <-; discriminate|].
  destruct (Ascii.eqb c "<"); [intros <-; discriminate|].
  destruct (Ascii.eqb c ">"); [intros <-; discriminate|].
  assert (Hstep : String c (escape s) = t -> String c s = t).
  { intros <-. simpl in Ht; apply andb_true_iff in Ht; destruct Ht as [_ Ht].
    f_equal. now apply IH. }
  destruct (Ascii.eqb c (ascii_of_nat 194)); [|exact Hstep].
  destruct s as [|c' s']; [auto|].
  destruct (Ascii.eqb c' (ascii_of_nat 160)); [intros <-; discriminate|].
  exact Hstep.
Qed.

Lemma serialize_plain e t : plain t = true -> serialize e = t -> text e = t.
Proof.
  unfold serialize; destruct (serializes_raw (tagName e)); auto.
  apply escape_plain.
Qed.

(** The update path of [addOutlineStyles]: the block found under the key
    keeps its place, its reference and its id, and holds the new text
    when this is plain; nothing else changes. *)
Lemma apply_existing_spec k t d n :
  getElementById k d = Some n ->
  exists d',
    addOutlineStyles k t d = (Normal tt, d') /\
    head d' = head d /\ body d' = body d /\
    List.length (objects d') = List.length (objects d) /\
    (forall m, id_of d' m = id_of d m) /\
    (plain t = true -> content d' n = Some t) /\
    (forall m, m <> n -> deref d' m = deref d m) /\
    (content d n = Some (rawtext t) -> d' = d).
Proof.
  intros H. destruct (apply_existing k t d n H) as (e & He & Hk & Hrun).
  destruct (String.eqb_spec (serialize e) t) as [Heq|Hne].
  - exists d. unfold content; rewrite He; simpl. repeat split; auto.
    intros Hp; f_equal; now apply serialize_plain.
  - eexists; split; [exact Hrun|]. simpl.
    split; [reflexivity|]. split; [reflexivity|].
    split; [apply update_length|].
    split; [|split; [|split]].
    + intros m. unfold id_of.
      destruct (Nat.eq_dec n m) as [<-|Hm].
      * rewrite (deref_update_eq d n _ e) by assumption. now rewrite He.
      * now rewrite deref_update_ne.
    + intros Hp. unfold content. rewrite (deref_update_eq d n _ e) by assumption.
      simpl. now rewrite rawtext_plain.
    + intros m Hm. now apply deref_update_ne; congruence.
    + unfold content; rewrite He; simpl; intros [= Ht].
      rewrite <- Ht. destruct d as [o h b]; destruct e as [tg i tx]; simpl in *.
      f_equal. now apply update_same.
Qed.

(** In terms of the registry: the update path keeps every block of
    every key where it is. *)
Lemma apply_existing_blocks k t d n :
  getElementById k d = Some n ->
  exists d',
    addOutlineStyles k t d = (Normal tt, d') /\
    head d' = head d /\ body d' = body d /\
    List.length (objects d') = List.length (objects d) /\
    (forall k', blocks k' d' = blocks k' d) /\
    getElementById k d' = Some n /\
    (plain t = true -> content d' n = Some t) /\
    (forall m, m <> n -> deref d' m = deref d m) /\
    (wf d -> wf d').
Proof.
  intros Hget.
  destruct (apply_existing_spec k t d n Hget)
    as (d' & Hrun & Hh & Hb & Hlen & Hid & Hc & Hother & _).
  assert (Htree : tree d' = tree d).
  { unfold tree, children; now rewrite Hh, Hb. }
  assert (Hblocks : forall k', blocks k' d' = blocks k' d).
  { intros k'; apply blocks_same_ids; auto. }
  exists d'. repeat (split; [assumption|]).
  split. { now rewrite !getElementById_blocks, Hblocks, <- getElementById_blocks. }
  split; [assumption|]. split; [assumption|].
  intros [Hnd Hbd]; split; rewrite Htree; auto. now rewrite Hlen.
Qed.

Lemma apply_existing_text k t d n :
  getElementById k d = Some n ->
  exists d',
    addOutlineStyles k t d = (Normal tt, d') /\
    getElementById k d' = Some n /\ holds t d' n.
Proof.
  intros H. destruct (apply_existing_blocks k t d n H)
    as (d' & Hrun & _ & _ & _ & _ & Hget' & _).
  exists d'; split; [exact Hrun|]. split; [exact Hget'|].
  destruct (apply_existing k t d n H) as (e & He & Hk & Hrun').
  rewrite Hrun' in Hrun.
  destruct (String.eqb_spec (serialize e) t) as [Heq|Hne].
  - injection Hrun as <-. right; eauto.
  - injection Hrun as <-. left. unfold content.
    now rewrite (deref_update_eq d n _ e).
Qed.


Lemma wf_fresh_notin d : wf d -> ~ In (List.length (objects d)) (tree d).
Proof.
  intros [_ Hb] Hin. rewrite Forall_forall in Hb. apply Hb in Hin. lia.
Qed.

(** The create path on a document with a head: a new style element is
    allocated and becomes the last child of the head. *)
Lemma apply_create k t d h :
  wf d -> getElementById k d = None -> head d = Some h ->
  addOutlineStyles k t d =
    (Normal tt,
     mkDocument (objects d ++ [fresh_style k t])
       (Some (h ++ [List.length (objects d)])) (body d)).
Proof.
  intros Hwf Hnone Hh. rewrite (apply_absent k t d Hnone), Hh.
  pose proof (wf_fresh_notin d Hwf) as Hfresh.
  unfold tree, children in Hfresh; rewrite Hh in Hfresh.
  rewrite !remove_node_notin; auto.
  all: intros Hin; apply Hfresh; apply in_or_app; auto.
Qed.

Lemma deref_alloc_old d e h b m :
  m < List.length (objects d) ->
  deref (mkDocument (objects d ++ [e]) h b) m = deref d m.
Proof. unfold deref; simpl; intros; now apply nth_error_app1. Qed.

Lemma deref_alloc_new d e h b :
  deref (mkDocument (objects d ++ [e]) h b) (List.length (objects d)) = Some e.
Proof. unfold deref; simpl; apply nth_error_app_last. Qed.

Lemma blocks_alloc e k' d l h b :
  Forall (fun n => n < List.length (objects d)) l ->
  filter (has_id (mkDocument (objects d ++ [e]) h b) k') l
  = filter (has_id d k') l.
Proof.
  intros Hb. apply filter_ext_on; intros m Hm.
  rewrite Forall_forall in Hb. unfold has_id.
  rewrite deref_alloc_old by auto. reflexivity.
Qed.

(** What [addOutlineStyles] does on a well-formed document with a head. *)
Lemma apply_spec k t d :
  wf d -> available d ->
  exists d',
    addOutlineStyles k t d = (Normal tt, d') /\
    wf d' /\ available d' /\
    (forall k', k' <> k -> blocks k' d' = blocks k' d) /\
    blocks k d' =
      match blocks k d with
      | [] => if String.eqb k "" then [] else [List.length (objects d)]
      | l => l
      end /\
    (k <> "" ->
     exists n, getElementById k d' = Some n /\ holds t d' n /\
               (plain t = true -> content d' n = Some t)) /\
    (forall m, In m (tree d) -> getElementById k d <> Some m -> deref d' m = deref d m).
Proof.
  intros Hwf Hav.
  destruct (getElementById k d) as [n|] eqn:Hget.
  - destruct (apply_existing_blocks k t d n Hget)
      as (d' & Hrun & Hh & Hb & Hlen & Hblocks & Hget' & Hc & Hother & Hwf').
    exists d'. split; [exact Hrun|].
    split; [auto|].
    split. { unfold available; now rewrite Hh. }
    split. { intros; apply Hblocks. }
    split.
    { rewrite Hblocks. rewrite getElementById_blocks in Hget.
      destruct (blocks k d); [discriminate | reflexivity]. }
    split.
    { intros _; exists n; split; [assumption|]. split; [|assumption].
      destruct (apply_existing_text k t d n Hget) as (d'' & Hrun'' & _ & Hholds).
      rewrite Hrun in Hrun''. now injection Hrun'' as <-. }
    intros m _ Hm. apply Hother; congruence.
  - destruct (head d) as [h|] eqn:Hh; [|now elim Hav].
    pose proof (apply_create k t d h Hwf Hget Hh) as Hrun.
    pose proof (wf_fresh_notin d Hwf) as Hfresh.
    destruct Hwf as [Hnd Hbd].
    assert (Hbh : Forall (fun n => n < List.length (objects d)) h /\
                  Forall (fun n => n < List.length (objects d)) (body d)).
    { unfold tree, children in Hbd; rewrite Hh in Hbd.
      now apply Forall_app in Hbd. }
    destruct Hbh as [Hbh Hbb].
    set (len := List.length (objects d)) in *.
    set (d' := mkDocument (objects d ++ [fresh_style k t]) (Some (h ++ [len])) (body d)) in *.
    assert (Hnew : forall k',
               has_id d' k' len = negb (String.eqb k' "") && String.eqb k k').
    { intros k'. unfold has_id, d', len. rewrite deref_alloc_new. reflexivity. }
    assert (Hblocks : forall k',
               blocks k' d' =
               filter (has_id d k') h
                 ++ (if negb (String.eqb k' "") && String.eqb k k' then [len] else [])
                 ++ filter (has_id d k') (body d)).
    { intros k'. unfold blocks, tree; simpl.
      rewrite !filter_app; simpl. rewrite Hnew.
      unfold d'. rewrite !blocks_alloc by assumption.
      rewrite <- !app_assoc. reflexivity. }
    assert (Hold : forall k', blocks k' d = filter (has_id d k') h ++ filter (has_id d k') (body d)).
    { intros k'. unfold blocks, tree, children; rewrite Hh. apply filter_app. }
    exists d'. split; [exact Hrun|].
    split.
    { split.
      - unfold tree, children in *; simpl; rewrite Hh in *.
        rewrite <- app_assoc; simpl.
        apply NoDup_Add with (a := len) (l := h ++ body d); [apply Add_app|].
        split; assumption.
      - unfold tree, children; simpl.
        rewrite length_app; simpl.
        apply Forall_app; split; [apply Forall_app; split|].
        + eapply Forall_impl; [|exact Hbh]; simpl; intros; lia.
        + constructor; [fold len; lia | constructor].
        + eapply Forall_impl; [|exact Hbb]; simpl; intros; lia. }
    split. { unfold available, d'; simpl; discriminate. }
    split.
    { intros k' Hk. rewrite Hblocks, Hold.
      destruct (String.eqb_spec k k'); [congruence|].
      now rewrite andb_false_r. }
    apply getElementById_None in Hget.
    assert (Hk : blocks k d' = if String.eqb k "" then [] else [len]).
    { rewrite Hblocks, String.eqb_refl. pose proof (Hold k) as Hk0.
      rewrite Hget in Hk0. symmetry in Hk0. apply app_eq_nil in Hk0.
      destruct Hk0 as [E1 E2]. rewrite E1, E2.
      destruct (String.eqb k ""); reflexivity. }
    split. { now rewrite Hget. }
    split.
    { intros Hne; apply String.eqb_neq in Hne. exists len; split.
      - now rewrite getElementById_blocks, Hk, Hne.
      - split.
        + left. unfold content, d', len. now rewrite deref_alloc_new.
        + intros Hp. unfold content, d', len. rewrite deref_alloc_new.
          simpl. now rewrite rawtext_plain. }
    intros m Hm _. unfold d'. apply deref_alloc_old.
    rewrite Forall_forall in Hbd; auto.
Qed.

End ApplyFacts.

(** ** Sequencing *)

Section MonadFacts.

Lemma bind_normal {A B} (m : M A) (k : A -> M B) d a d' :
  m d = (Normal a, d') -> bind m k d = k a d'.
Proof. unfold bind; now intros ->. Qed.

Lemma bind_throw {A B} (m : M A) (k : A -> M B) d e d' :
  m d = (Throw e, d') -> bind m k d = (Throw e, d').
Proof. unfold bind; now intros ->. Qed.

Lemma run_eq {A} (m : M A) d : m d = (outcome m d, exec m d).
Proof. unfold outcome, exec; now destruct (m d). Qed.

Lemma clear_clearStyle k d : clear k d = clearStyle k d.
Proof.
  destruct (clearStyle_spec k d) as (d' & Hrun & _).
  unfold clear, clearStyles; simpl.
  now rewrite (bind_normal _ _ _ _ _ Hrun), Hrun.
Qed.

Lemma clearStyles_Many_cons k ks d :
  clearStyles (Many (k :: ks)) d = clearStyles (Many ks) (exec (clear k) d).
Proof.
  destruct (clearStyle_spec k d) as (d' & Hrun & _).
  unfold exec; rewrite clear_clearStyle, Hrun; simpl.
  unfold clearStyles; simpl. now rewrite (bind_normal _ _ _ _ _ Hrun).
Qed.

End MonadFacts.

(** ** The invariants and the operations *)

Section InvariantFacts.

Lemma clear_spec k d :
  exists d',
    clear k d = (Normal tt, d') /\
    objects d' = objects d /\
    (head d' = None <-> head d = None) /\
    blocks k d' = tl (blocks k d) /\
    (forall k', k' <> k -> blocks k' d' = blocks k' d) /\
    (wf d -> wf d').
Proof. rewrite clear_clearStyle; apply clearStyle_spec. Qed.

Lemma clear_run k d : clear k d = (Normal tt, exec (clear k) d).
Proof.
  destruct (clear_spec k d) as (d' & Hrun & _).
  unfold exec; now rewrite Hrun.
Qed.

Lemma clear_preserves_invariant k d : invariant d -> invariant (exec (clear k) d).
Proof.
  intros Hinv k'.
  destruct (clear_spec k d) as (d' & Hrun & _ & _ & Hk & Hother & _).
  unfold exec; rewrite Hrun; simpl.
  destruct (String.eqb_spec k' k) as [->|Hne].
  - rewrite Hk. specialize (Hinv k). destruct (blocks k d); simpl in *; lia.
  - rewrite Hother by assumption. apply Hinv.
Qed.

Lemma clear_preserves_wf k d : wf d -> wf (exec (clear k) d).
Proof.
  intros Hwf. destruct (clear_spec k d) as (d' & Hrun & _ & _ & _ & _ & H).
  unfold exec; rewrite Hrun; auto.
Qed.

Lemma clearStyles_Many_spec ks d :
  clearStyles (Many ks) d = (Normal tt, clear_each ks d).
Proof.
  revert d; induction ks as [|k ks IH]; intros d.
  - reflexivity.
  - rewrite clearStyles_Many_cons, IH. reflexivity.
Qed.

Lemma clearStyles_spec sel d :
  clearStyles sel d =
    (Normal tt, clear_each (match sel with One k => [k] | Many ks => ks end) d).
Proof.
  destruct sel as [k|ks]; [|apply clearStyles_Many_spec].
  change (clearStyles (One k)) with (clear k).
  simpl. apply clear_run.
Qed.

End InvariantFacts.

Section Preservation.

(** [addOutlineStyles] on a document without a head and without a block
    under the key: the element is created and filled, then the call
    throws; the tree is as before. *)
Lemma apply_unavailable k t d :
  wf d -> head d = None -> getElementById k d = None ->
  exists d',
    addOutlineStyles k t d = (Throw TypeError, d') /\
    head d' = None /\ body d' = body d /\
    (forall k', blocks k' d' = blocks k' d) /\
    (forall m, In m (tree d) -> deref d' m = deref d m) /\
    wf d'.
Proof.
  intros [Hnd Hbd] Hh Hget.
  rewrite (apply_absent k t d Hget), Hh.
  eexists; split; [reflexivity|]. simpl.
  split; [reflexivity|]. split; [reflexivity|].
  assert (Htree : forall o, tree (mkDocument o None (body d)) = tree d).
  { intros o; unfold tree, children; simpl; now rewrite Hh. }
  split; [|split].
  - intros k'. unfold blocks. rewrite Htree. now apply blocks_alloc.
  - intros m Hm. apply deref_alloc_old. rewrite Forall_forall in Hbd; auto.
  - split; rewrite Htree; auto. simpl. rewrite length_app; simpl.
    eapply Forall_impl; [|exact Hbd]; simpl; intros; lia.
Qed.

(** The effect of [apply] on the blocks, whatever the document. *)
Lemma apply_blocks k t d :
  wf d ->
  let d' := exec (apply k t) d in
  wf d' /\
  (head d' = None <-> head d = None) /\
  (forall k', k' <> k -> blocks k' d' = blocks k' d) /\
  List.length (blocks k d') <= Nat.max 1 (List.length (blocks k d)) /\
  (blocks k d <> [] -> blocks k d' = blocks k d).
Proof.
  intros Hwf d'; subst d'; unfold exec, apply.
  destruct (getElementById k d) as [n|] eqn:Hget.
  - destruct (apply_existing_blocks k t d n Hget)
      as (d' & Hrun & Hh & Hb & Hlen & Hblocks & _ & _ & _ & Hwf').
    rewrite Hrun; cbn [snd]. rewrite Hh, !Hblocks.
    split; [auto|]. split; [tauto|]. split; [auto|]. split; [lia|auto].
  - destruct (head d) as [h|] eqn:Hh.
    + assert (Hav : available d) by (unfold available; congruence).
      destruct (apply_spec k t d Hwf Hav)
        as (d' & Hrun & Hwf' & Hav' & Hother & Hk & _).
      rewrite Hrun; cbn [snd]. apply getElementById_None in Hget.
      rewrite Hk, Hget.
      split; [auto|]. split; [split; [intros E; now elim Hav' | discriminate]|].
      split; [auto|].
      split; [destruct (String.eqb k ""); simpl; lia | congruence].
    + destruct (apply_unavailable k t d Hwf Hh Hget)
        as (d' & Hrun & Hh' & _ & Hblocks & _ & Hwf').
      rewrite Hrun; cbn [snd]. rewrite !Hblocks.
      split; [auto|]. split; [tauto|]. split; [auto|]. split; [lia|auto].
Qed.

Lemma apply_preserves_invariant k t d :
  wf d -> invariant d -> invariant (exec (apply k t) d).
Proof.
  intros Hwf Hinv k'.
  destruct (apply_blocks k t d Hwf) as (_ & _ & Hother & Hk & _).
  destruct (String.eqb_spec k' k) as [->|Hne].
  - specialize (Hinv k). lia.
  - rewrite Hother by assumption. apply Hinv.
Qed.

Lemma apply_preserves_wf k t d : wf d -> wf (exec (apply k t) d).
Proof. intros Hwf; apply (apply_blocks k t d Hwf). Qed.

Lemma clear_each_preserves ks d :
  (invariant d -> invariant (clear_each ks d)) /\ (wf d -> wf (clear_each ks d)).
Proof.
  revert d; induction ks as [|k ks IH]; intros d; simpl; [tauto|].
  destruct (IH (exec (clear k) d)) as [Hi Hw]. split; intros H.
  - apply Hi, clear_preserves_invariant, H.
  - apply Hw, clear_preserves_wf, H.
Qed.

Lemma clearStyles_preserves_invariant sel d :
  invariant d -> invariant (exec (clearStyles sel) d).
Proof.
  unfold exec; rewrite clearStyles_spec; simpl. apply clear_each_preserves.
Qed.

Lemma clearStyles_preserves_wf sel d : wf d -> wf (exec (clearStyles sel) d).
Proof.
  unfold exec; rewrite clearStyles_spec; simpl. apply clear_each_preserves.
Qed.

Lemma step_preserves d d' :
  step d d' -> wf d /\ invariant d -> wf d' /\ invariant d'.
Proof.
  intros [k t d0 | sel d0] [Hwf Hinv]; split.
  - now apply apply_preserves_wf.
  - now apply apply_preserves_invariant.
  - now apply clearStyles_preserves_wf.
  - now apply clearStyles_preserves_invariant.
Qed.

Lemma steps_preserve d d' :
  steps d d' -> wf d /\ invariant d -> wf d' /\ invariant d'.
Proof.
  induction 1 as [|d d' d'' _ IH Hstep]; auto.
  intros H; eapply step_preserves; eauto.
Qed.

Lemma empty_document_ok : wf empty_document /\ invariant empty_document.
Proof.
  split; [split|]; simpl.
  - constructor.
  - constructor.
  - intros k; simpl; lia.
Qed.

(** Every document the helpers produce from the initial one is well
    formed and holds at most one block per key. *)
Lemma reachable_ok d : reachable d -> wf d /\ invariant d.
Proof. intros H; eapply steps_preserve; [exact H | apply empty_document_ok]. Qed.

End Preservation.

(** ** The boolean checks *)

Section Checks.

Lemma nodupb_nat_sound l : nodupb Nat.eqb l = true -> NoDup l.
Proof.
  induction l as [|x l IH]; simpl; intros H; [constructor|].
  apply andb_true_iff in H; destruct H as [Hx Hl].
  constructor; auto.
  intros Hin. apply mem_true_iff in Hin. unfold mem in Hin.
  now rewrite Hin in Hx.
Qed.

Lemma wfb_sound d : wfb d = true -> wf d.
Proof.
  unfold wfb, wf; intros H; apply andb_true_iff in H; destruct H as [Hn Hb].
  split; [now apply nodupb_nat_sound|].
  rewrite forallb_forall in Hb. apply Forall_forall; intros n Hn'.
  apply Nat.ltb_lt; auto.
Qed.

Lemma no_same_id_filter d k x l :
  id_of d x = Some k ->
  existsb (same_id (id_of d x)) (map (id_of d) l) = false ->
  filter (has_id d k) l = [].
Proof.
  intros Hx; rewrite Hx; induction l as [|y l IH]; simpl; auto.
  intros H; apply orb_false_iff in H; destruct H as [Hy Hl].
  rewrite has_id_id_of. destruct (id_of d y) as [i|]; simpl in *; auto.
  rewrite String.eqb_sym in Hy. rewrite Hy, andb_false_r; auto.
Qed.

Lemma invariantb_sound d : invariantb d = true -> invariant d.
Proof.
  unfold invariantb, invariant, ids, blocks; intros H k.
  induction (tree d) as [|x l IH]; simpl in *; [lia|].
  apply andb_true_iff in H; destruct H as [Hx Hl].
  apply negb_true_iff in Hx.
  destruct (has_id d k x) eqn:Hid; auto.
  apply has_id_true in Hid; destruct Hid as [_ Hid].
  rewrite (no_same_id_filter d k x l Hid Hx). simpl; lia.
Qed.



End Checks.

(** * The claims *)

Import Samples.

Section SampleFacts.

Lemma outlined_wf : wf outlined.
Proof. apply wfb_sound; reflexivity. Qed.

Lemma outlined_invariant : invariant outlined.
Proof. apply invariantb_sound; reflexivity. Qed.

Lemma outlined_available : available outlined.
Proof. unfold available, outlined; simpl; discriminate. Qed.

Lemma headless_wf : wf headless.
Proof. apply wfb_sound; reflexivity. Qed.


Lemma outline_key : "addon-outline" <> "".
Proof. discriminate. Qed.

Lemma outlined_single : List.length (carrying "addon-outline" outlined) <= 1.
Proof. simpl; lia. Qed.


Lemma single_cases (l : list node) :
  List.length l <= 1 -> l = [] \/ exists n, l = [n].
Proof. destruct l as [|n [|m l]]; simpl; eauto; lia. Qed.

End SampleFacts.

Section ReadFacts.

Lemma read_style d n t : content d n = Some t -> is_style d n -> read d n = Some t.
Proof.
  unfold content, is_style, read, serialize.
  destruct (deref d n) as [e|]; simpl; [|discriminate].
  intros [= <-] [= ->]. reflexivity.
Qed.

Lemma get_innerHTML_read d n :
  outcome (get_innerHTML n) d =
    match read d n with Some s => Normal s | None => Throw TypeError end.
Proof.
  unfold outcome, get_innerHTML, read. now destruct (deref d n).
Qed.



(** After a call that completed normally under a key that is not the
    empty string, where the element found before, if any, was a style
    element: a style element is found under the key, and it holds the
    text when this is plain. *)
Lemma apply_keeps_style d k t :
  wf d -> k <> "" ->
  (forall n, getElementById k d = Some n -> is_style d n) ->
  outcome (apply k t) d = Normal tt ->
  exists n, getElementById k (exec (apply k t) d) = Some n /\
            is_style (exec (apply k t) d) n /\
            (plain t = true -> content (exec (apply k t) d) n = Some t).
Proof.
  intros Hwf Hne Hst Hok. unfold outcome, exec, apply in *.
  destruct (getElementById k d) as [n|] eqn:Hget.
  - destruct (apply_existing_blocks k t d n Hget)
      as (d' & Hrun & _ & _ & _ & _ & Hget' & Hc & _).
    destruct (apply_existing k t d n Hget) as (e & He & _ & Hrun').
    specialize (Hst n eq_refl). unfold is_style in Hst; rewrite He in Hst.
    rewrite Hrun; simpl. exists n. split; [exact Hget'|]. split; [|exact Hc].
    rewrite Hrun' in Hrun.
    destruct (String.eqb (serialize e) t); injection Hrun as <-.
    + unfold is_style; now rewrite He.
    + unfold is_style. now rewrite (deref_update_eq d n _ e).
  - destruct (head d) as [h|] eqn:Hh.
    + assert (Hav : available d) by (unfold available; congruence).
      destruct (apply_spec k t d Hwf Hav) as (d' & Hrun & _ & _ & _ & Hk & Hc & _).
      pose proof (apply_create k t d h Hwf Hget Hh) as Hrun'.
      rewrite Hrun; simpl. destruct (Hc Hne) as (n & Hg & _ & Hp).
      exists n. split; [exact Hg|]. split; [|exact Hp].
      rewrite Hrun' in Hrun. injection Hrun as <-.
      rewrite getElementById_blocks, Hk in Hg.
      apply getElementById_None in Hget. rewrite Hget in Hg.
      apply String.eqb_neq in Hne. rewrite Hne in Hg. injection Hg as <-.
      unfold is_style. now rewrite deref_alloc_new.
    + destruct (apply_unavailable k t d Hwf Hh Hget) as (d' & Hrun & _).
      rewrite Hrun in Hok; simpl in Hok; discriminate.
Qed.

End ReadFacts.

(** ** apply and clear *)




(** [apply k t] followed by [clear k] drops the first block under [k], if
    there is one, and leaves the others. *)
Lemma apply_then_clear_drops_first d k t :
  wf d ->
  blocks k (exec (apply k t ;;; clear k) d) = tl (blocks k d) /\
  outcome (apply k t ;;; clear k) d =
    match head d, getElementById k d with
    | None, None => Throw TypeError
    | _, _ => Normal tt
    end.
Proof.
  intros Hwf. unfold outcome, exec, apply.
  destruct (getElementById k d) as [n|] eqn:Hget.
  - destruct (apply_existing_blocks k t d n Hget)
      as (d1 & Hrun & _ & _ & _ & Hblocks & _).
    destruct (clear_spec k d1) as (d2 & Hclear & _ & _ & Hk & _).
    rewrite (bind_normal _ _ _ _ _ Hrun), Hclear; simpl.
    split; [|now destruct (head d)].
    now rewrite Hk, Hblocks.
  - pose proof Hget as Hnone. apply getElementById_None in Hnone.
    destruct (head d) as [h|] eqn:Hh.
    + assert (Hav : available d) by (unfold available; congruence).
      destruct (apply_spec k t d Hwf Hav) as (d1 & Hrun & _ & _ & _ & Hk1 & _).
      destruct (clear_spec k d1) as (d2 & Hclear & _ & _ & Hk & _).
      rewrite (bind_normal _ _ _ _ _ Hrun), Hclear; simpl.
      split; [|reflexivity].
      rewrite Hk, Hk1, Hnone. now destruct (String.eqb k "").
    + destruct (apply_unavailable k t d Hwf Hh Hget) as (d1 & Hrun & _ & _ & Hblocks & _).
      rewrite (bind_throw _ _ _ _ _ Hrun); simpl.
      split; [|reflexivity].
      now rewrite Hblocks, Hnone.
Qed.

(** C2.  For a key that is not the empty string, from a well-formed
    document that holds at most one element with the id [k], [apply k t]
    followed by [clear k] leaves no element with the id [k]; the pair
    completes normally unless the document has neither a head nor a block
    under [k], in which case [apply] throws before [clear] is reached. *)
Theorem apply_then_clear_leaves_none d k t :
  wf d -> k <> "" -> List.length (carrying k d) <= 1 ->
  carrying k (exec (apply k t ;;; clear k) d) = [] /\
  outcome (apply k t ;;; clear k) d =
    match head d, getElementById k d with
    | None, None => Throw TypeError
    | _, _ => Normal tt
    end.
Proof.
  intros Hwf Hne Hone.
  rewrite <- blocks_carrying in Hone by assumption.
  destruct (apply_then_clear_drops_first d k t Hwf) as [Hb Ho].
  split; [|exact Ho]. rewrite <- blocks_carrying by assumption. rewrite Hb.
  destruct (single_cases _ Hone) as [->|[m ->]]; reflexivity.
Qed.

Lemma apply_then_clear_leaves_none_witness :
  wf outlined /\ "addon-outline" <> "" /\
  List.length (carrying "addon-outline" outlined) <= 1 /\
  carrying "addon-outline"
    (exec (apply "addon-outline" blue ;;; clear "addon-outline") outlined) = [] /\
  outcome (apply "addon-outline" blue ;;; clear "addon-outline") outlined =
    match head outlined, getElementById "addon-outline" outlined with
    | None, None => Throw TypeError
    | _, _ => Normal tt
    end.
Proof.
  split; [exact outlined_wf|]. split; [exact outline_key|].
  split; [exact outlined_single|].
  exact (apply_then_clear_leaves_none outlined "addon-outline" blue
           outlined_wf outline_key outlined_single).
Defined.

(** C2, the claim as it stands.  On a document with two style elements
    of the same id, [apply] followed by [clear] completes normally and
    leaves the second of them; under the empty key the element [apply]
    has created is not found by [clear] and stays. *)
Lemma apply_then_clear_leaves_duplicate :
  wf duplicated /\
  outcome (apply "addon-outline" blue ;;; clear "addon-outline") duplicated = Normal tt /\
  carrying "addon-outline"
    (exec (apply "addon-outline" blue ;;; clear "addon-outline") duplicated) = [1] /\
  blocks "addon-outline"
    (exec (apply "addon-outline" blue ;;; clear "addon-outline") duplicated) = [1] /\
  wf empty_document /\
  outcome (apply "" blue ;;; clear "") empty_document = Normal tt /\
  carrying "" (exec (apply "" blue ;;; clear "") empty_document) = [0].
Proof.
  split; [apply wfb_sound; reflexivity|].
  split; [reflexivity|]. split; [reflexivity|]. split; [reflexivity|].
  split; [apply wfb_sound; reflexivity|].
  split; reflexivity.
Qed.




(** C4.  [clear k] on a document without a block under [k] completes
    normally and leaves the document as it is. *)
Theorem clear_absent_is_noop d k :
  blocks k d = [] -> clear k d = (Normal tt, d).
Proof.
  intros H. rewrite clear_clearStyle.
  apply clearStyle_absent, getElementById_None, H.
Qed.

Lemma clear_absent_is_noop_witness :
  blocks "addon-outline-docs-card--default" outlined = [] /\
  clear "addon-outline-docs-card--default" outlined = (Normal tt, outlined).
Proof.
  split; [reflexivity|].
  exact (clear_absent_is_noop outlined "addon-outline-docs-card--default" eq_refl).
Defined.

(** ** The invariant *)




(** ** Replacement in place *)




(** ** Failure *)

(** C7, as the code has it.  [clearStyles] never throws.  [apply] throws
    in one case only, a [TypeError] when the document has no head and no
    block under the key; the caller receives it, and head, body and every
    element that existed are as before.  In every other case, a missing
    head included, [apply] completes normally. *)
Theorem failure_semantics d k t sel :
  outcome (clearStyles sel) d = Normal tt /\
  outcome (apply k t) d =
    match head d, getElementById k d with
    | None, None => Throw TypeError
    | _, _ => Normal tt
    end /\
  match outcome (apply k t) d with
  | Normal _ => True
  | Throw _ =>
      head (exec (apply k t) d) = head d /\
      body (exec (apply k t) d) = body d /\
      firstn (List.length (objects d)) (objects (exec (apply k t) d)) = objects d
  end.
Proof.
  split; [unfold outcome; now rewrite clearStyles_spec|].
  unfold outcome, exec, apply.
  destruct (getElementById k d) as [n|] eqn:Hget.
  - destruct (apply_existing_blocks k t d n Hget) as (d' & Hrun & _).
    rewrite Hrun; simpl. split; [now destruct (head d) | exact I].
  - rewrite (apply_absent k t d Hget).
    destruct (head d) as [h|] eqn:Hh; simpl; [split; [reflexivity | exact I]|].
    split; [reflexivity|]. split; [reflexivity|]. split; [reflexivity|].
    rewrite firstn_app, Nat.sub_diag, firstn_all; simpl. apply app_nil_r.
Qed.

(** C7 as stated fails: on a well-formed document without a head, [clear]
    and [apply] can both complete normally and change the document; even
    with nothing to clear, [clear] does not throw. *)
Lemma no_head_operations_succeed :
  wf headless /\ head headless = None /\
  outcome (clear "addon-outline") headless = Normal tt /\
  blocks "addon-outline" headless = [0] /\
  blocks "addon-outline" (exec (clear "addon-outline") headless) = [] /\
  outcome (apply "addon-outline" blue) headless = Normal tt /\
  content headless 0 = Some red /\
  content (exec (apply "addon-outline" blue) headless) 0 = Some blue /\
  head bare = None /\
  outcome (clear "addon-outline") bare = Normal tt.
Proof. split; [exact headless_wf|]. repeat split. Qed.

(** ** The decorator *)

Lemma useMemo_outlineCSS s deps h d :
  exists r, useMemo (fun _ => call_outlineCSS s) deps h d = (Normal r, d).
Proof.
  unfold useMemo, call_outlineCSS, bind, ret.
  destruct (memo h) as [[old v]|]; [destruct (deps_eqb old deps)|]; eauto.
Qed.

(** Whatever the toggle, the view mode and the remembered hooks, the
    decorator throws a [ReferenceError] when nothing binds [isActive], and
    the document is as before: the effect is never registered. *)
Lemma withGlobals_throws window ctx g h d :
  lookup "isActive" window = None ->
  withGlobals window ctx g h d = (Throw ReferenceError, d).
Proof.
  intros Hw. unfold withGlobals; cbv zeta. unfold bind at 1.
  match goal with
  | |- context [useMemo (fun _ => call_outlineCSS ?s) ?deps h d] =>
      destruct (useMemo_outlineCSS s deps h d) as [r Hr]; rewrite Hr
  end.
  unfold bind, identifier; simpl. rewrite Hw. reflexivity.
Qed.

(** C8 at a failing input: the story [button--primary] in story mode with
    the outline switched on.  The claim expects a block under
    [addon-outline]; the decorator throws and the document stays empty. *)
Theorem withGlobals_active_creates_no_block :
  let ctx := mkContext "story" "button--primary" in
  let g := mkGlobals (VBool true) in
  withGlobals [] ctx g no_hooks empty_document = (Throw ReferenceError, empty_document) /\
  blocks "addon-outline" (exec (withGlobals [] ctx g no_hooks) empty_document) = [].
Proof. split; reflexivity. Qed.

(** Where [isActive] is bound, the effect does what the chapter describes:
    a block is found under the key afterwards exactly when the value is
    truthy. *)
Lemma effect_follows_isActive sc (isInDocs : bool) ctx css v d :
  lookup "isActive" sc = Some v ->
  wf d -> available d -> invariant d ->
  let selectorId :=
    if isInDocs then ("addon-outline-docs-" ++ id ctx)%string else "addon-outline" in
  (exists cleanup, outcome (effect sc isInDocs ctx css) d = Normal cleanup) /\
  (blocks selectorId (exec (effect sc isInDocs ctx css) d) <> [] <-> truthy v = true).
Proof.
  intros Hv Hwf Hav Hinv selectorId.
  assert (Heff : effect sc isInDocs ctx css d =
                 (if negb (truthy v)
                  then clearStyles (One selectorId) ;;; ret None
                  else addOutlineStyles selectorId css ;;;
                       ret (Some (clearStyles (One selectorId)))) d).
  { unfold effect, identifier; fold selectorId; rewrite Hv. reflexivity. }
  unfold outcome, exec; rewrite Heff; clear Heff.
  destruct (truthy v); cbv beta iota delta [negb].
  - destruct (apply_spec selectorId css d Hwf Hav) as (d' & Hrun & _ & _ & _ & Hk & _).
    rewrite (bind_normal _ _ _ _ _ Hrun). unfold ret; simpl.
    split; [eauto|]. split; [reflexivity|]. intros _.
    assert (Hne : String.eqb selectorId "" = false).
    { subst selectorId; destruct isInDocs; reflexivity. }
    rewrite Hk, Hne. destruct (blocks selectorId d) eqn:E; discriminate.
  - change (clearStyles (One selectorId)) with (clear selectorId).
    destruct (clear_spec selectorId d) as (d' & Hrun & _ & _ & Hk & _).
    rewrite (bind_normal _ _ _ _ _ Hrun). unfold ret; simpl.
    split; [eauto|]. split; [|discriminate]. intros H; exfalso; apply H.
    rewrite Hk. destruct (invariant_cases selectorId d Hinv) as [->|[m ->]]; reflexivity.
Qed.

(** ** The generator *)

Example rule_body :
  rule ".sb-show-main" ("body", "2980b9") =
  (nl ++ "    .sb-show-main body {" ++ nl
      ++ "      outline: 1px solid #2980b9 !important;" ++ nl
      ++ "    }")%string.
Proof. reflexivity. Qed.

Example rules_count : List.length rules = 99.
Proof. reflexivity. Qed.

(** C9.  A call of the generator returns the text [outlineCSS s] whatever
    the document, and leaves the document as it is; two calls with the same
    selector return the same text, whatever script [m] runs between them. *)
Theorem outlineCSS_pure s d1 d2 (m : M unit) :
  outcome (call_outlineCSS s) d1 = outcome (call_outlineCSS s) d2 /\
  outcome (call_outlineCSS s) d1 = Normal (outlineCSS s) /\
  exec (call_outlineCSS s) d1 = d1 /\
  outcome (r1 <- call_outlineCSS s ;; m ;;; r2 <- call_outlineCSS s ;; ret (r1, r2)) d1 =
    match outcome m d1 with
    | Normal _ => Normal (outlineCSS s, outlineCSS s)
    | Throw e => Throw e
    end.
Proof.
  repeat (split; [reflexivity|]).
  unfold outcome, call_outlineCSS, bind, ret; simpl.
  destruct (m d1) as [[[]|e] d']; reflexivity.
Qed.

(** ** One selector or several *)

Section ClearEach.

Lemma skipn_S_tl {A} n (l : list A) : skipn (S n) l = skipn n (tl l).
Proof. destruct l; simpl; [now destruct n | reflexivity]. Qed.

Lemma clear_each_blocks ks k d :
  blocks k (clear_each ks d) = skipn (count_occ string_dec ks k) (blocks k d).
Proof.
  revert d; induction ks as [|x ks IH]; intros d; simpl; [reflexivity|].
  rewrite IH.
  destruct (clear_spec x d) as (d' & Hrun & _ & _ & Hk & Hother & _).
  unfold exec; rewrite Hrun; simpl.
  destruct (string_dec x k) as [->|Hne].
  - now rewrite Hk, skipn_S_tl.
  - now rewrite Hother by congruence.
Qed.

(** With at most one block per key, none is left under a key of the
    list. *)
Lemma clearStyles_removes_all ks k d :
  invariant d -> In k ks -> blocks k (exec (clearStyles (Many ks)) d) = [].
Proof.
  intros Hinv Hin. unfold exec; rewrite clearStyles_Many_spec; simpl.
  rewrite clear_each_blocks.
  apply (count_occ_In string_dec) in Hin.
  destruct (count_occ string_dec ks k) as [|c]; [lia|].
  destruct (invariant_cases k d Hinv) as [->|[m ->]]; simpl; now destruct c.
Qed.

End ClearEach.

(** C10.  [clearStyles] on a list completes normally and has cleared the
    keys one call at a time, in the order of the list; on one key it is
    [clearStyles] on the list of that key; under every key it has dropped
    as many blocks, from the front, as the key occurs in the list. *)
Theorem clearStyles_one_or_many d ks k :
  clearStyles (Many ks) d = (Normal tt, clear_each ks d) /\
  clearStyles (One k) d = clearStyles (Many [k]) d /\
  blocks k (exec (clearStyles (Many ks)) d) =
    skipn (count_occ string_dec ks k) (blocks k d).
Proof.
  split; [apply clearStyles_Many_spec|]. split; [reflexivity|].
  unfold exec; rewrite clearStyles_Many_spec; simpl. apply clear_each_blocks.
Qed.

(** ** The scenario of the specification *)

Example scenario :
  let d1 := exec (apply "addon-outline" red) empty_document in
  let d2 := exec (apply "addon-outline" blue) d1 in
  let d3 := exec (clear "addon-outline") d2 in
  blocks "addon-outline" d1 = [0] /\ content d1 0 = Some red /\
  blocks "addon-outline" d2 = [0] /\ content d2 0 = Some blue /\
  tree d3 = [].
Proof. repeat split. Qed.

(** * Further properties of the helpers *)

Import Relations.

Section LookupFacts.

(** The frame of [addOutlineStyles], on every path: the blocks of another
    key and the elements they refer to are as before. *)
Lemma apply_frame d k t k' :
  wf d -> k' <> k ->
  blocks k' (exec (apply k t) d) = blocks k' d /\
  forall m, In m (blocks k' d) -> deref (exec (apply k t) d) m = deref d m.
Proof.
  intros Hwf Hne. unfold exec, apply.
  assert (Htree : forall m, In m (blocks k' d) -> In m (tree d) /\ has_id d k' m = true).
  { intros m Hm. unfold blocks in Hm. now apply filter_In in Hm. }
  destruct (getElementById k d) as [n|] eqn:Hget.
  - destruct (apply_existing_blocks k t d n Hget)
      as (d' & Hrun & _ & _ & _ & Hblocks & _ & _ & Hother & _).
    rewrite Hrun; simpl. split; [apply Hblocks|].
    intros m Hm. apply Hother. intros ->.
    destruct (Htree n Hm) as [_ Hid'].
    destruct (getElementById_Some k d n Hget) as [_ Hid].
    apply has_id_true in Hid, Hid'.
    destruct Hid as [_ Hid], Hid' as [_ Hid']. congruence.
  - destruct (head d) as [h|] eqn:Hh.
    + assert (Hav : available d) by (unfold available; congruence).
      destruct (apply_spec k t d Hwf Hav) as (d' & Hrun & _ & _ & Hother & _ & _ & Hderef).
      rewrite Hrun; simpl. split; [now apply Hother|].
      intros m Hm. apply Hderef; [apply (Htree m Hm) | congruence].
    + destruct (apply_unavailable k t d Hwf Hh Hget)
        as (d' & Hrun & _ & _ & Hblocks & Hderef & _).
      rewrite Hrun; simpl. split; [apply Hblocks|].
      intros m Hm. apply Hderef, (Htree m Hm).
Qed.

(** The document [clearStyle] returns when it finds the element [n]. *)
Lemma clearStyle_result k d n :
  getElementById k d = Some n ->
  clearStyle k d =
    (Normal tt,
     mkDocument (objects d) (option_map (remove_node n) (head d))
       (if mem n (children Head d) then body d else remove_node n (body d))).
Proof.
  intros H. destruct (getElementById_Some _ _ _ H) as [Hin _].
  unfold clearStyle, bind, document_getElementById, parentElement, gets; rewrite H.
  destruct (mem n (children Head d)) eqn:Hh.
  - unfold removeChild; rewrite Hh.
    apply mem_true_iff in Hh. unfold children in *.
    destruct (head d) as [l|]; [reflexivity | contradiction].
  - apply mem_false_iff in Hh.
    assert (Hb : In n (children Body d)).
    { unfold tree in Hin; apply in_app_or in Hin; tauto. }
    apply mem_true_iff in Hb; rewrite Hb.
    unfold removeChild; rewrite Hb. simpl.
    unfold children in Hh. destruct d as [o [l|] b]; simpl in *; [|reflexivity].
    now rewrite (remove_node_notin n l Hh).
Qed.

Lemma clearStyle_tree k d :
  tree (exec (clearStyle k) d) =
    match getElementById k d with
    | Some n => remove_node n (tree d)
    | None => tree d
    end.
Proof.
  unfold exec. destruct (getElementById k d) as [n|] eqn:H.
  - destruct (clearStyle_found k d n H) as (d' & Hrun & _ & Ht & _).
    now rewrite Hrun.
  - now rewrite (clearStyle_absent k d H).
Qed.

End LookupFacts.

(** X1.  Write, then read: when [apply k t] has completed normally on a
    well-formed document, for a key that is not the empty string and a
    plain text, where the element found under [k] before, if any, was a
    style element, the element found under [k] holds [t] and reads [t],
    whether the block was created or updated and however many elements
    carried the id before. *)
Theorem apply_then_lookup d k t :
  wf d -> k <> "" -> plain t = true ->
  (forall n, getElementById k d = Some n -> is_style d n) ->
  outcome (apply k t) d = Normal tt ->
  exists n, getElementById k (exec (apply k t) d) = Some n /\
            content (exec (apply k t) d) n = Some t /\
            read (exec (apply k t) d) n = Some t.
Proof.
  intros Hwf Hne Hp Hst Hok.
  destruct (apply_keeps_style d k t Hwf Hne Hst Hok) as (n & Hget & Hs & Hc).
  exists n. split; [exact Hget|]. split; [exact (Hc Hp)|].
  exact (read_style _ _ _ (Hc Hp) Hs).
Qed.

Lemma apply_then_lookup_witness :
  wf headless /\ "addon-outline" <> "" /\ plain blue = true /\
  (forall n, getElementById "addon-outline" headless = Some n -> is_style headless n) /\
  outcome (apply "addon-outline" blue) headless = Normal tt /\
  exists n, getElementById "addon-outline" (exec (apply "addon-outline" blue) headless) = Some n /\
            content (exec (apply "addon-outline" blue) headless) n = Some blue /\
            read (exec (apply "addon-outline" blue) headless) n = Some blue.
Proof.
  assert (Hst : forall n, getElementById "addon-outline" headless = Some n ->
                          is_style headless n).
  { intros n H; injection H as <-; reflexivity. }
  split; [exact headless_wf|]. split; [exact outline_key|].
  split; [reflexivity|]. split; [exact Hst|]. split; [reflexivity|].
  exact (apply_then_lookup headless "addon-outline" blue
           headless_wf outline_key eq_refl Hst eq_refl).
Defined.

(** X2.  [apply k t] of a plain text leaves every other key alone, on the
    update path, the create path and the path that throws: the same
    elements are registered under [k'], the same one is found first, and
    each holds what it held. *)
Theorem apply_leaves_other_keys d k t k' :
  wf d -> k' <> k -> plain t = true ->
  let d' := exec (apply k t) d in
  blocks k' d' = blocks k' d /\
  getElementById k' d' = getElementById k' d /\
  forall m, In m (blocks k' d) -> deref d' m = deref d m.
Proof.
  intros Hwf Hne _ d'. destruct (apply_frame d k t k' Hwf Hne) as [Hb Hd].
  subst d'. split; [exact Hb|]. split; [|exact Hd].
  now rewrite !getElementById_blocks, Hb.
Qed.

Lemma apply_leaves_other_keys_witness :
  wf outlined /\ "addon-outline-docs-button--primary" <> "addon-outline-docs-card--default" /\
  plain red = true /\
  let d' := exec (apply "addon-outline-docs-card--default" red) outlined in
  blocks "addon-outline-docs-button--primary" d'
    = blocks "addon-outline-docs-button--primary" outlined /\
  getElementById "addon-outline-docs-button--primary" d'
    = getElementById "addon-outline-docs-button--primary" outlined /\
  forall m, In m (blocks "addon-outline-docs-button--primary" outlined) ->
            deref d' m = deref outlined m.
Proof.
  assert (Hne : "addon-outline-docs-button--primary" <> "addon-outline-docs-card--default")
    by discriminate.
  split; [exact outlined_wf|]. split; [exact Hne|]. split; [reflexivity|].
  exact (apply_leaves_other_keys outlined "addon-outline-docs-card--default" red
           "addon-outline-docs-button--primary" outlined_wf Hne eq_refl).
Defined.



(** X4.  Where the block goes: on a well-formed document whose head has
    the children [h] and in which no element is found under [k],
    [apply k t] of a plain text allocates one element, a [style] element
    with id [k] and text [t], and makes it the last child of the head; the
    body and every element that existed are untouched. *)
Theorem apply_appends_to_head d k t h :
  wf d -> head d = Some h -> getElementById k d = None -> plain t = true ->
  let d' := exec (apply k t) d in
  outcome (apply k t) d = Normal tt /\
  head d' = Some (h ++ [List.length (objects d)]) /\
  body d' = body d /\
  objects d' = objects d ++ [mkElement "style" (Some k) t].
Proof.
  intros Hwf Hh Hget Hp d'; subst d'. unfold outcome, exec, apply.
  rewrite (apply_create k t d h Hwf Hget Hh). unfold fresh_style.
  rewrite (rawtext_plain t Hp). repeat split.
Qed.

Lemma apply_appends_to_head_witness :
  wf outlined /\ head outlined = Some [0; 1] /\
  getElementById "addon-outline-docs-card--default" outlined = None /\
  plain red = true /\
  let d' := exec (apply "addon-outline-docs-card--default" red) outlined in
  outcome (apply "addon-outline-docs-card--default" red) outlined = Normal tt /\
  head d' = Some ([0; 1] ++ [List.length (objects outlined)]) /\
  body d' = body outlined /\
  objects d' = objects outlined
                 ++ [mkElement "style" (Some "addon-outline-docs-card--default") red].
Proof.
  split; [exact outlined_wf|]. split; [reflexivity|]. split; [reflexivity|].
  split; [reflexivity|].
  exact (apply_appends_to_head outlined "addon-outline-docs-card--default" red [0; 1]
           outlined_wf eq_refl eq_refl eq_refl).
Defined.

Section ClearFacts.

Lemma shrinks_refl d : shrinks d d.
Proof. repeat split; auto. Qed.

Lemma shrinks_trans d1 d2 d3 : shrinks d1 d2 -> shrinks d2 d3 -> shrinks d1 d3.
Proof.
  intros (Ho & Hh & Ht & Hb) (Ho' & Hh' & Ht' & Hb').
  split; [congruence|]. split; [tauto|]. split; [auto|].
  intros k; specialize (Hb k); specialize (Hb' k); lia.
Qed.

Lemma clear_shrinks k d : shrinks d (exec (clear k) d).
Proof.
  destruct (clear_spec k d) as (d' & Hrun & Hobj & Hhead & Hk & Hother & _).
  pose proof (clearStyle_tree k d) as Htree.
  unfold exec in *. rewrite <- clear_clearStyle in Htree. rewrite Hrun in *; simpl in *.
  split; [exact Hobj|]. split; [exact Hhead|]. split.
  - intros n Hn. rewrite Htree in Hn.
    destruct (getElementById k d); [eapply In_remove_node; eauto | exact Hn].
  - intros k'. destruct (String.eqb_spec k' k) as [->|Hne].
    + rewrite Hk. destruct (blocks k d); simpl; lia.
    + rewrite Hother by assumption. lia.
Qed.

Lemma clear_each_shrinks ks d : shrinks d (clear_each ks d).
Proof.
  revert d; induction ks as [|k ks IH]; intros d; simpl; [apply shrinks_refl|].
  eapply shrinks_trans; [apply clear_shrinks | apply IH].
Qed.

Lemma remove_node_comm n m l :
  remove_node n (remove_node m l) = remove_node m (remove_node n l).
Proof.
  induction l as [|x l IH]; simpl; auto.
  destruct (Nat.eqb m x) eqn:Em; destruct (Nat.eqb n x) eqn:En;
    simpl; rewrite ?Em, ?En; auto.
  - apply Nat.eqb_eq in Em, En; subst; reflexivity.
  - now rewrite IH.
Qed.

Lemma mem_remove_node_other n m l : n <> m -> mem n (remove_node m l) = mem n l.
Proof.
  intros Hne; induction l as [|x l IH]; simpl; auto.
  destruct (Nat.eqb_spec m x) as [->|Hm]; simpl.
  - destruct (Nat.eqb_spec n x); [congruence | reflexivity].
  - now rewrite IH.
Qed.

Lemma getElementById_after_clear k k' d :
  k' <> k -> getElementById k' (exec (clear k) d) = getElementById k' d.
Proof.
  intros Hne. destruct (clear_spec k d) as (d' & Hrun & _ & _ & _ & Hother & _).
  unfold exec; rewrite Hrun; simpl.
  now rewrite !getElementById_blocks, Hother.
Qed.

Lemma exec_clear_found k d n :
  getElementById k d = Some n ->
  exec (clear k) d =
    mkDocument (objects d) (option_map (remove_node n) (head d))
      (if mem n (children Head d) then body d else remove_node n (body d)).
Proof.
  intros H. unfold exec. now rewrite clear_clearStyle, (clearStyle_result k d n H).
Qed.

Lemma exec_clear_absent k d : getElementById k d = None -> exec (clear k) d = d.
Proof.
  intros H. unfold exec. now rewrite clear_clearStyle, (clearStyle_absent k d H).
Qed.

(** Two calls of [clear] commute. *)
Lemma clear_comm k1 k2 d :
  exec (clear k2) (exec (clear k1) d) = exec (clear k1) (exec (clear k2) d).
Proof.
  destruct (String.eqb_spec k1 k2) as [->|Hne]; [reflexivity|].
  assert (Hne' : k2 <> k1) by congruence.
  pose proof (getElementById_after_clear k1 k2 d Hne') as H21.
  pose proof (getElementById_after_clear k2 k1 d Hne) as H12.
  destruct (getElementById k1 d) as [n1|] eqn:H1;
    destruct (getElementById k2 d) as [n2|] eqn:H2.
  - assert (Hn : n1 <> n2).
    { intros ->. apply getElementById_Some in H1, H2.
      destruct H1 as [_ H1], H2 as [_ H2]. apply has_id_true in H1, H2.
      destruct H1 as [_ H1], H2 as [_ H2]. congruence. }
    rewrite (exec_clear_found k2 _ n2 H21), (exec_clear_found k1 _ n1 H12).
    rewrite (exec_clear_found k1 d n1 H1), (exec_clear_found k2 d n2 H2).
    unfold children; simpl.
    destruct (head d) as [h|]; simpl.
    + rewrite (mem_remove_node_other n2 n1 h) by congruence.
      rewrite (mem_remove_node_other n1 n2 h) by congruence.
      f_equal; [now rewrite remove_node_comm|].
      destruct (mem n1 h), (mem n2 h); auto. apply remove_node_comm.
    + f_equal. apply remove_node_comm.
  - rewrite (exec_clear_absent k2 _ H21), (exec_clear_absent k2 d H2). reflexivity.
  - rewrite (exec_clear_absent k1 _ H12), (exec_clear_absent k1 d H1). reflexivity.
  - rewrite (exec_clear_absent k2 _ H21), (exec_clear_absent k1 d H1).
    rewrite (exec_clear_absent k2 d H2), (exec_clear_absent k1 d H1). reflexivity.
Qed.

End ClearFacts.

(** X5.  [clearStyles] only detaches.  For one selector or a list, on any
    document of the model, in which the elements with an id are children
    of the head or of the body: it completes normally, leaves the element
    store as it is (no text, id or tag is edited, nothing is allocated),
    keeps the head if there is one, attaches nothing, and no key gains a
    block. *)
Theorem clearStyles_only_detaches d sel :
  outcome (clearStyles sel) d = Normal tt /\
  shrinks d (exec (clearStyles sel) d).
Proof.
  unfold outcome, exec; rewrite clearStyles_spec; simpl.
  split; [reflexivity | apply clear_each_shrinks].
Qed.

(** X6.  Remove, then look up: after [clear k] on a document of the model
    (the elements with an id are children of the head or of the body) with
    at most one block per key, nothing is found under [k], and what is
    found under another key [k'] is the element found before. *)
Theorem clear_then_lookup d k k' :
  invariant d -> k' <> k ->
  getElementById k (exec (clear k) d) = None /\
  getElementById k' (exec (clear k) d) = getElementById k' d.
Proof.
  intros Hinv Hne. split; [|now apply getElementById_after_clear].
  destruct (clear_spec k d) as (d' & Hrun & _ & _ & Hk & _).
  unfold exec; rewrite Hrun; simpl.
  apply getElementById_None. rewrite Hk.
  destruct (invariant_cases k d Hinv) as [->|[m ->]]; reflexivity.
Qed.

Lemma clear_then_lookup_witness :
  invariant outlined /\ "addon-outline-docs-button--primary" <> "addon-outline" /\
  getElementById "addon-outline" (exec (clear "addon-outline") outlined) = None /\
  getElementById "addon-outline-docs-button--primary" (exec (clear "addon-outline") outlined)
    = getElementById "addon-outline-docs-button--primary" outlined.
Proof.
  assert (Hne : "addon-outline-docs-button--primary" <> "addon-outline") by discriminate.
  split; [exact outlined_invariant|]. split; [exact Hne|].
  exact (clear_then_lookup outlined "addon-outline" "addon-outline-docs-button--primary"
           outlined_invariant Hne).
Defined.

(** X7.  The order of the selectors does not matter: [clearStyles] on two
    lists that are permutations of each other returns the same document,
    on any document of the model, where no element with an id lies inside
    another. *)
Theorem clearStyles_order_irrelevant d ks ks' :
  Permutation ks ks' -> clearStyles (Many ks) d = clearStyles (Many ks') d.
Proof.
  intros Hp. rewrite !clearStyles_Many_spec. f_equal.
  revert d; induction Hp as [|x l l' _ IH|x y l|l l' l'' _ IH1 _ IH2]; intros d; simpl.
  - reflexivity.
  - apply IH.
  - now rewrite clear_comm.
  - now rewrite IH1.
Qed.

Lemma clearStyles_order_irrelevant_witness :
  Permutation ["addon-outline"; "addon-outline-docs-button--primary"]
              ["addon-outline-docs-button--primary"; "addon-outline"] /\
  clearStyles (Many ["addon-outline"; "addon-outline-docs-button--primary"]) outlined
  = clearStyles (Many ["addon-outline-docs-button--primary"; "addon-outline"]) outlined.
Proof.
  split; [apply perm_swap|].
  exact (clearStyles_order_irrelevant outlined _ _ (perm_swap _ _ _)).
Defined.

(** X8.  Removing and applying again is not an update in place: on a
    well-formed document with a head and at most one block per key, where
    the element [n], a child of the head or of the body, is found under
    [k], [clear k] followed by [apply k t] of a plain text completes
    normally and the block under [k] is a newly allocated element,
    different from [n], the last child of the head, holding [t]; the
    element [n] itself is as it was, no longer attached. *)
Theorem clear_then_apply_is_a_new_element d k t n :
  wf d -> available d -> invariant d -> getElementById k d = Some n ->
  plain t = true ->
  let d' := exec (clear k ;;; apply k t) d in
  let fresh := List.length (objects d) in
  outcome (clear k ;;; apply k t) d = Normal tt /\
  getElementById k d' = Some fresh /\ fresh <> n /\
  content d' fresh = Some t /\
  (exists h, head d' = Some (h ++ [fresh])) /\
  deref d' n = deref d n /\ ~ In n (tree d').
Proof.
  intros Hwf Hav Hinv Hget Hp d' fresh; subst d' fresh.
  assert (Hne : String.eqb k "" = false).
  { destruct (getElementById_Some k d n Hget) as [_ Hid].
    apply has_id_true in Hid. now apply String.eqb_neq. }
  destruct (clear_spec k d) as (d1 & Hrun1 & Hobj & Hhead & Hk & _ & Hwf1).
  specialize (Hwf1 Hwf).
  assert (Hget1 : getElementById k d1 = None).
  { apply getElementById_None. rewrite Hk.
    destruct (invariant_cases k d Hinv) as [->|[m ->]]; reflexivity. }
  assert (Hh1 : exists h, head d1 = Some h).
  { destruct (head d1) as [h|] eqn:E; [eauto|]. elim Hav. now apply Hhead. }
  destruct Hh1 as [h1 Hh1].
  pose proof (apply_create k t d1 h1 Hwf1 Hget1 Hh1) as Hrun2.
  destruct (getElementById_Some k d n Hget) as [Hin _].
  assert (Hlt : n < List.length (objects d)).
  { destruct Hwf as [_ Hb]. rewrite Forall_forall in Hb; auto. }
  assert (Ht1 : tree d1 = remove_node n (tree d)).
  { pose proof (clearStyle_tree k d) as Ht. unfold exec in Ht.
    rewrite <- clear_clearStyle, Hrun1, Hget in Ht. exact Ht. }
  assert (Hnot : ~ In n (tree d1)).
  { rewrite Ht1. destruct Hwf as [Hnd _]. clear - Hnd.
    induction Hnd as [|x l Hx _ IH]; simpl; [tauto|].
    destruct (Nat.eqb_spec n x) as [->|Hne]; [exact Hx|].
    simpl; intros [E|E]; [congruence | auto]. }
  unfold outcome, exec, apply in *.
  rewrite (bind_normal _ _ _ _ _ Hrun1), Hrun2; simpl. rewrite Hobj.
  set (fresh := List.length (objects d)) in *.
  assert (Htree2 : tree (mkDocument (objects d ++ [fresh_style k t]) (Some (h1 ++ [fresh])) (body d1))
                   = h1 ++ [fresh] ++ body d1).
  { unfold tree, children; simpl. now rewrite <- app_assoc. }
  assert (Htree1 : tree d1 = h1 ++ body d1).
  { unfold tree, children; now rewrite Hh1. }
  split; [reflexivity|]. split.
  - rewrite getElementById_blocks. unfold blocks. rewrite Htree2, !filter_app.
    assert (Hold : forall l, Forall (fun m => m < fresh) l ->
              filter (has_id (mkDocument (objects d ++ [fresh_style k t])
                                (Some (h1 ++ [fresh])) (body d1)) k) l
              = filter (has_id d1 k) l).
    { intros l Hl. unfold fresh in *. rewrite <- Hobj in *. now apply blocks_alloc. }
    destruct Hwf1 as [_ Hb1]. rewrite Htree1, Hobj in Hb1. fold fresh in Hb1.
    apply Forall_app in Hb1; destruct Hb1 as [Hbh Hbb].
    unfold node in *. rewrite (Hold h1 Hbh), (Hold (body d1) Hbb).
    apply getElementById_None in Hget1. unfold blocks in Hget1.
    rewrite Htree1, filter_app in Hget1. apply app_eq_nil in Hget1.
    destruct Hget1 as [-> ->]. simpl.
    unfold has_id, deref; simpl. unfold fresh. rewrite nth_error_app_last; simpl.
    now rewrite Hne, String.eqb_refl.
  - split; [lia|]. split.
    + unfold content, deref; simpl. unfold fresh. rewrite nth_error_app_last.
      simpl. now rewrite rawtext_plain.
    + split; [eauto|]. split.
      * unfold deref; simpl. now apply nth_error_app1.
      * rewrite Htree2. rewrite Htree1 in Hnot. intros Hin'.
        apply in_app_or in Hin'. destruct Hin' as [Hin'|Hin'].
        { apply Hnot, in_or_app; auto. }
        simpl in Hin'. destruct Hin' as [E|Hin']; [lia|].
        apply Hnot, in_or_app; auto.
Qed.

Lemma clear_then_apply_is_a_new_element_witness :
  wf outlined /\ available outlined /\ invariant outlined /\
  getElementById "addon-outline" outlined = Some 0 /\ plain blue = true /\
  let d' := exec (clear "addon-outline" ;;; apply "addon-outline" blue) outlined in
  let fresh := List.length (objects outlined) in
  outcome (clear "addon-outline" ;;; apply "addon-outline" blue) outlined = Normal tt /\
  getElementById "addon-outline" d' = Some fresh /\ fresh <> 0 /\
  content d' fresh = Some blue /\
  (exists h, head d' = Some (h ++ [fresh])) /\
  deref d' 0 = deref outlined 0 /\ ~ In 0 (tree d').
Proof.
  split; [exact outlined_wf|]. split; [exact outlined_available|].
  split; [exact outlined_invariant|]. split; [reflexivity|]. split; [reflexivity|].
  exact (clear_then_apply_is_a_new_element outlined "addon-outline" blue 0
           outlined_wf outlined_available outlined_invariant eq_refl eq_refl).
Defined.

(** * Further properties of the generator *)

Section StringFacts.

Lemma string_length_append (a b : string) :
  String.length (a ++ b) = String.length a + String.length b.
Proof. induction a as [|c a IH]; simpl; auto. Qed.

Lemma string_append_assoc (a b c : string) :
  ((a ++ b) ++ c = a ++ (b ++ c))%string.
Proof. induction a as [|x a IH]; simpl; congruence. Qed.

Lemma string_append_nil_r (a : string) : (a ++ "" = a)%string.
Proof. induction a as [|x a IH]; simpl; congruence. Qed.

Lemma string_append_inj_l (a b x y : string) :
  String.length a = String.length b -> (a ++ x = b ++ y)%string -> a = b.
Proof.
  revert b; induction a as [|c a IH]; intros [|c' b]; simpl; try discriminate; auto.
  intros [= Hl] [= -> H]. f_equal; eauto.
Qed.

Lemma concat_cons (x : string) (l : list string) :
  String.concat "" (x :: l) = (x ++ String.concat "" l)%string.
Proof.
  destruct l as [|y l]; simpl; [now rewrite string_append_nil_r | reflexivity].
Qed.

Lemma concat_length (l : list string) :
  String.length (String.concat "" l) = list_sum (map String.length l).
Proof.
  induction l as [|x l IH]; [reflexivity|].
  rewrite concat_cons, string_length_append, IH. reflexivity.
Qed.

Lemma rule_length s r :
  String.length (rule s r) =
    String.length s + (String.length (fst r) + String.length (snd r) + 53).
Proof.
  unfold rule, nl. rewrite !string_length_append. simpl. lia.
Qed.

Lemma list_sum_step (x : nat) (l : list nat) : list_sum (x :: l) = x + list_sum l.
Proof. reflexivity. Qed.

Lemma rules_length s (l : list (string * string)) :
  String.length (String.concat "" (map (rule s) l)) =
    List.length l * String.length s
    + list_sum (map (fun r => String.length (fst r) + String.length (snd r) + 53) l).
Proof.
  rewrite concat_length, map_map.
  induction l as [|r l IH]; [reflexivity|].
  cbn [map List.length]. rewrite !list_sum_step, rule_length, IH. lia.
Qed.

(** The text begins with the first rule: a line break, four blanks and
    the selector. *)
Lemma outlineCSS_shape s :
  exists r, outlineCSS s = (nl ++ "    " ++ s ++ r)%string.
Proof.
  assert (Hr : rules = ("body", "2980b9") :: tl rules) by reflexivity.
  unfold outlineCSS. rewrite Hr, map_cons, concat_cons.
  unfold rule at 1. rewrite !string_append_assoc.
  eexists; reflexivity.
Qed.


Lemma outlineCSS_size s :
  String.length (outlineCSS s) = 99 * String.length s + 6259.
Proof.
  unfold outlineCSS. rewrite rules_length.
  replace (List.length rules) with 99 by reflexivity.
  replace (list_sum (map (fun r => String.length (fst r) + String.length (snd r) + 53) rules))
    with 6259 by reflexivity.
  reflexivity.
Qed.

(** A rule is the selector between two texts that do not depend on it. *)
Lemma rule_frame s r :
  rule s r =
  ((nl ++ "    ") ++ s
     ++ (" " ++ fst r ++ " {" ++ nl
           ++ "      outline: 1px solid #" ++ snd r ++ " !important;" ++ nl
           ++ "    }"))%string.
Proof. unfold rule. now rewrite !string_append_assoc. Qed.

Lemma plain_append (a b : string) : plain (a ++ b) = plain a && plain b.
Proof. induction a as [|c a IH]; simpl; auto. now rewrite IH, andb_assoc. Qed.

Lemma plain_concat (l : list string) :
  forallb plain l = true -> plain (String.concat "" l) = true.
Proof.
  induction l as [|x l IH]; [reflexivity|].
  cbn [forallb]. rewrite andb_true_iff. intros [Hx Hl].
  rewrite concat_cons, plain_append, Hx, IH; auto.
Qed.

(** The generator writes a plain text for a plain selector. *)
Lemma outlineCSS_plain s : plain s = true -> plain (outlineCSS s) = true.
Proof.
  intros Hs. unfold outlineCSS. apply plain_concat.
  apply forallb_forall. intros x Hx. apply in_map_iff in Hx.
  destruct Hx as (r & <- & Hr). rewrite rule_frame, !plain_append, Hs.
  assert (Hall : forallb (fun r => plain (fst r) && plain (snd r)) rules = true)
    by reflexivity.
  rewrite forallb_forall in Hall. specialize (Hall r Hr).
  apply andb_true_iff in Hall. destruct Hall as [H1 H2].
  rewrite H1, H2. reflexivity.
Qed.

End StringFacts.

(** X9.  The selector is written once in front of each of the 99 rules and
    nowhere else: there are 99 pairs of texts, the same for every selector,
    such that the style text is the concatenation, pair by pair, of the
    first text, the selector and the second text; the first text is a line
    break and four blanks; and the length of the style text is 99 times the
    length of the selector plus 6259. *)
Theorem outlineCSS_selector_once :
  exists frames : list (string * string),
    List.length frames = 99 /\
    (forall p, In p frames -> fst p = (nl ++ "    ")%string) /\
    (forall s,
       outlineCSS s =
       String.concat "" (map (fun p => (fst p ++ s ++ snd p)%string) frames)) /\
    (forall s, String.length (outlineCSS s) = 99 * String.length s + 6259).
Proof.
  exists (map (fun r =>
            ((nl ++ "    ")%string,
             (" " ++ fst r ++ " {" ++ nl
                ++ "      outline: 1px solid #" ++ snd r ++ " !important;" ++ nl
                ++ "    }")%string)) rules).
  split; [reflexivity|]. split.
  - intros p Hp. apply in_map_iff in Hp. destruct Hp as (r & <- & _). reflexivity.
  - split; [|apply outlineCSS_size].
    intros s. unfold outlineCSS. rewrite map_map.
    rewrite (map_ext _ _ (rule_frame s)). reflexivity.
Qed.

(** X10.  Different selectors give different style texts: [outlineCSS] is
    injective, so the comparison of [addOutlineStyles] with the text of the
    block sees every change of the selector. *)
Theorem outlineCSS_injective s1 s2 :
  outlineCSS s1 = outlineCSS s2 -> s1 = s2.
Proof.
  intros H.
  assert (Hlen : String.length s1 = String.length s2).
  { pose proof (f_equal String.length H) as Hl.
    rewrite !outlineCSS_size in Hl. lia. }
  destruct (outlineCSS_shape s1) as [r1 E1], (outlineCSS_shape s2) as [r2 E2].
  rewrite E1, E2 in H. unfold nl in H. simpl in H.
  injection H as H. eapply string_append_inj_l; eauto.
Qed.

Lemma outlineCSS_injective_witness :
  outlineCSS ".sb-show-main" = outlineCSS ".sb-show-main" /\
  ".sb-show-main" = ".sb-show-main".
Proof.
  split; [reflexivity|].
  exact (outlineCSS_injective ".sb-show-main" ".sb-show-main" eq_refl).
Defined.

(** * Further properties of the decorator *)

Section DecoratorFacts.

(** The identifier [isActive] is bound by nothing in the decorator or
    its module: it is looked up in the global object. *)
Lemma lookup_isActive (window : scope) (a b c : value) :
  lookup "isActive"
    ([ ("StoryFn", VFunction); ("context", VObject)
     ; ("outlineActive", a); ("updateGlobals", VFunction)
     ; ("isInDocs", b); ("outlineStyles", c) ]
     ++ module_scope ++ window)
  = lookup "isActive" window.
Proof. reflexivity. Qed.

(** The effect reads its scope through [isActive] only. *)
Lemma effect_scope sc sc' isInDocs ctx css :
  lookup "isActive" sc = lookup "isActive" sc' ->
  effect sc isInDocs ctx css = effect sc' isInDocs ctx css.
Proof. intros H. unfold effect, identifier. now rewrite H. Qed.

Lemma deps_eqb_refl l : deps_eqb l l = true.
Proof.
  induction l as [|v l IH]; simpl; auto.
  rewrite IH, andb_true_r.
  destruct v; simpl; auto using Bool.eqb_reflx, String.eqb_refl.
Qed.

(** The frame of the effect: a key other than its own keeps its blocks
    and their elements, whether the effect clears, applies or throws. *)
Lemma effect_frame sc (isInDocs : bool) ctx css d k' :
  wf d ->
  k' <> (if isInDocs then ("addon-outline-docs-" ++ id ctx)%string else "addon-outline") ->
  blocks k' (exec (effect sc isInDocs ctx css) d) = blocks k' d /\
  forall m, In m (blocks k' d) -> deref (exec (effect sc isInDocs ctx css) d) m = deref d m.
Proof.
  intros Hwf Hne.
  set (key := if isInDocs then ("addon-outline-docs-" ++ id ctx)%string else "addon-outline") in *.
  destruct (lookup "isActive" sc) as [v|] eqn:Hv.
  - assert (Heff : effect sc isInDocs ctx css d =
                   (if negb (truthy v)
                    then clearStyles (One key) ;;; ret None
                    else addOutlineStyles key css ;;;
                         ret (Some (clearStyles (One key)))) d).
    { unfold effect, identifier; fold key; rewrite Hv. reflexivity. }
    unfold exec; rewrite Heff; clear Heff.
    destruct (truthy v); cbv beta iota delta [negb].
    + destruct (apply_frame d key css k' Hwf Hne) as [Hb Hd].
      unfold exec, apply in Hb, Hd.
      unfold bind. destruct (addOutlineStyles key css d) as [[[]|e] d']; simpl in *; auto.
    + change (clearStyles (One key)) with (clear key).
      destruct (clear_spec key d) as (d' & Hrun & Hobj & _ & _ & Hother & _).
      rewrite (bind_normal _ _ _ _ _ Hrun). unfold ret; simpl.
      split; [now apply Hother|]. intros m _. unfold deref. now rewrite Hobj.
  - assert (Heff : effect sc isInDocs ctx css d = (Throw ReferenceError, d)).
    { unfold effect, identifier; rewrite Hv. reflexivity. }
    unfold exec; rewrite Heff. split; reflexivity.
Qed.

Lemma identifier_isActive window (a b c : value) v d :
  lookup "isActive" window = Some v ->
  identifier
    ([ ("StoryFn", VFunction); ("context", VObject)
     ; ("outlineActive", a); ("updateGlobals", VFunction)
     ; ("isInDocs", b); ("outlineStyles", c) ]
     ++ module_scope ++ window) "isActive" d
  = (Normal v, d).
Proof. intros H. unfold identifier. now rewrite lookup_isActive, H. Qed.

Lemma effect_run_truthy sc (isInDocs : bool) ctx css v d d' :
  lookup "isActive" sc = Some v -> truthy v = true ->
  addOutlineStyles
    (if isInDocs then ("addon-outline-docs-" ++ id ctx)%string else "addon-outline")
    css d = (Normal tt, d') ->
  effect sc isInDocs ctx css d =
    (Normal (Some (clearStyles
                     (One (if isInDocs then ("addon-outline-docs-" ++ id ctx)%string
                           else "addon-outline")))), d').
Proof.
  intros Hv Ht Hrun. unfold effect, identifier. rewrite Hv.
  unfold bind at 1, ret at 1. rewrite Ht. cbv beta iota delta [negb].
  now rewrite (bind_normal _ _ _ _ _ Hrun).
Qed.

End DecoratorFacts.

(** X11.  Unless the global object binds [isActive], every call of the
    decorator throws a [ReferenceError], whatever the toggle, the view
    mode, the story and the hooks remembered from earlier calls, and the
    document is as before: no block is created, none is removed. *)
Theorem withGlobals_never_runs_the_effect window ctx g h d :
  lookup "isActive" window = None ->
  withGlobals window ctx g h d = (Throw ReferenceError, d).
Proof. apply withGlobals_throws. Qed.

Lemma withGlobals_never_runs_the_effect_witness :
  lookup "isActive" [("document", VObject)] = None /\
  withGlobals [("document", VObject)] (mkContext "docs" "button--primary")
    (mkGlobals (VBool false)) no_hooks outlined
  = (Throw ReferenceError, outlined).
Proof.
  split; [reflexivity|].
  exact (withGlobals_never_runs_the_effect [("document", VObject)]
           (mkContext "docs" "button--primary") (mkGlobals (VBool false)) no_hooks
           outlined eq_refl).
Defined.

(** X12.  The toggle has no influence: two calls of the decorator that
    differ only in what [useGlobals] returns complete alike and leave the
    same document, whatever the global object binds. *)
Theorem withGlobals_ignores_the_toggle window ctx g1 g2 h d :
  withGlobals window ctx g1 h d = withGlobals window ctx g2 h d.
Proof.
  unfold withGlobals; cbv zeta. unfold bind at 1 3.
  match goal with
  | |- context [useMemo ?c ?deps h d] => destruct (useMemo c deps h d) as [[r|e] d']
  end; [|reflexivity].
  unfold bind, identifier. rewrite !lookup_isActive.
  destruct (lookup "isActive" window) as [v|]; [|reflexivity].
  unfold ret. f_equal.
Qed.

(** X13.  Where [isActive] is bound, the callback given to [useEffect]
    follows it: on a well-formed document with a head and at most one block
    per key it completes normally, and afterwards a block is found under
    the key of the story exactly when the value of [isActive] is truthy. *)
Theorem effect_applies_or_clears sc (isInDocs : bool) ctx css v d :
  lookup "isActive" sc = Some v ->
  wf d -> available d -> invariant d ->
  let selectorId :=
    if isInDocs then ("addon-outline-docs-" ++ id ctx)%string else "addon-outline" in
  (exists cleanup, outcome (effect sc isInDocs ctx css) d = Normal cleanup) /\
  (getElementById selectorId (exec (effect sc isInDocs ctx css) d) <> None
   <-> truthy v = true).
Proof.
  intros Hv Hwf Hav Hinv selectorId.
  destruct (effect_follows_isActive sc isInDocs ctx css v d Hv Hwf Hav Hinv) as [Ho Hb].
  split; [exact Ho|]. fold selectorId in Hb.
  rewrite <- Hb, getElementById_blocks.
  destruct (blocks selectorId (exec (effect sc isInDocs ctx css) d)); simpl;
    split; congruence.
Qed.

Lemma effect_applies_or_clears_witness :
  lookup "isActive" [("isActive", VBool false)] = Some (VBool false) /\
  wf outlined /\ available outlined /\ invariant outlined /\
  let ctx := mkContext "docs" "button--primary" in
  let selectorId := (if true then ("addon-outline-docs-" ++ id ctx)%string else "addon-outline") in
  (exists cleanup,
     outcome (effect [("isActive", VBool false)] true ctx red) outlined = Normal cleanup) /\
  (getElementById selectorId (exec (effect [("isActive", VBool false)] true ctx red) outlined)
     <> None
   <-> truthy (VBool false) = true).
Proof.
  split; [reflexivity|]. split; [exact outlined_wf|].
  split; [exact outlined_available|]. split; [exact outlined_invariant|].
  exact (effect_applies_or_clears [("isActive", VBool false)] true
           (mkContext "docs" "button--primary") red (VBool false) outlined
           eq_refl outlined_wf outlined_available outlined_invariant).
Defined.

(** X14.  The stories of a docs page do not disturb one another: the
    effect of the story [ctx] in docs mode leaves the block of another
    story, and the block of story mode, registered as they were, each with
    its element unchanged, whatever the scope binds. *)
Theorem effect_leaves_other_stories sc ctx other css d :
  wf d -> id other <> id ctx ->
  let d' := exec (effect sc true ctx css) d in
  let key := ("addon-outline-docs-" ++ id other)%string in
  blocks key d' = blocks key d /\
  (forall m, In m (blocks key d) -> deref d' m = deref d m) /\
  blocks "addon-outline" d' = blocks "addon-outline" d /\
  (forall m, In m (blocks "addon-outline" d) -> deref d' m = deref d m).
Proof.
  intros Hwf Hne d' key; subst d' key.
  assert (H1 : ("addon-outline-docs-" ++ id other)%string
               <> (if true then ("addon-outline-docs-" ++ id ctx)%string else "addon-outline")).
  { simpl. intros [= E]. now apply Hne. }
  assert (H2 : "addon-outline"
               <> (if true then ("addon-outline-docs-" ++ id ctx)%string else "addon-outline")).
  { simpl. discriminate. }
  destruct (effect_frame sc true ctx css d _ Hwf H1) as [Ha Hb].
  destruct (effect_frame sc true ctx css d _ Hwf H2) as [Hc Hd].
  repeat split; assumption.
Qed.

Lemma effect_leaves_other_stories_witness :
  let ctx := mkContext "docs" "card--default" in
  let other := mkContext "docs" "button--primary" in
  let sc := [("isActive", VBool true)] in
  wf outlined /\ id other <> id ctx /\
  let d' := exec (effect sc true ctx red) outlined in
  let key := ("addon-outline-docs-" ++ id other)%string in
  blocks key d' = blocks key outlined /\
  (forall m, In m (blocks key outlined) -> deref d' m = deref outlined m) /\
  blocks "addon-outline" d' = blocks "addon-outline" outlined /\
  (forall m, In m (blocks "addon-outline" outlined) -> deref d' m = deref outlined m).
Proof.
  assert (Hne : id (mkContext "docs" "button--primary") <> id (mkContext "docs" "card--default"))
    by discriminate.
  split; [exact outlined_wf|]. split; [exact Hne|].
  exact (effect_leaves_other_stories [("isActive", VBool true)]
           (mkContext "docs" "card--default") (mkContext "docs" "button--primary")
           red outlined outlined_wf Hne).
Defined.

(** X15.  The life of a block where the global object binds [isActive] to
    a truthy value: on a well-formed document with a head and at most one
    block per key, the first call of the decorator completes normally and
    a block holding the text generated for the story is found under its
    key (it holds what the parser makes of the text, which is the text
    itself when the story identifier is plain); a second call with the
    hooks of the
    first changes nothing, the dependencies being the same; the clean-up
    kept in the hooks removes the block. *)
Theorem withGlobals_lifecycle window ctx g v d :
  lookup "isActive" window = Some v -> truthy v = true ->
  wf d -> available d -> invariant d ->
  let docs := String.eqb (viewMode ctx) "docs" in
  let key := if docs then ("addon-outline-docs-" ++ id ctx)%string else "addon-outline" in
  let css := outlineCSS (if docs then ("#anchor--" ++ id ctx ++ " .docs-story")%string
                         else ".sb-show-main") in
  exists h' d',
    withGlobals window ctx g no_hooks d = (Normal h', d') /\
    (exists n, getElementById key d' = Some n /\ holds css d' n /\
               (plain (id ctx) = true -> content d' n = Some css)) /\
    withGlobals window ctx g h' d' = (Normal h', d') /\
    outcome (teardown h') d' = Normal tt /\
    blocks key (exec (teardown h') d') = [].
Proof.
  intros Hv Htruthy Hwf Hav Hinv docs key css.
  destruct (apply_spec key css d Hwf Hav) as (d' & Hrun & Hwf' & _ & _ & Hk & Hfound & _).
  set (deps := [v; VString css; VString (id ctx)]).
  set (h' := mkHooks (Some ([VString (id ctx)], css)) (Some deps)
               (Some (clearStyles (One key)))).
  exists h', d'.
  assert (Hsc : forall a b c,
            lookup "isActive"
              ([ ("StoryFn", VFunction); ("context", VObject)
               ; ("outlineActive", a); ("updateGlobals", VFunction)
               ; ("isInDocs", b); ("outlineStyles", c) ]
               ++ module_scope ++ window) = Some v).
  { intros a b c. now rewrite lookup_isActive. }
  assert (Hfirst : withGlobals window ctx g no_hooks d = (Normal h', d')).
  { unfold withGlobals; cbv zeta. fold docs.
    unfold bind at 1. unfold useMemo, no_hooks; cbn [memo effect_deps destroy].
    unfold bind at 1, call_outlineCSS, ret at 1 2; cbn [fst snd]. fold css.
    rewrite (bind_normal _ _ _ _ _ (identifier_isActive window _ _ _ v d Hv)).
    unfold useEffect; cbn [effect_deps destroy memo run_destroy].
    unfold bind at 1, ret at 1.
    rewrite (bind_normal _ _ _ _ _
               (effect_run_truthy _ docs ctx css v d d' (Hsc _ _ _) Htruthy Hrun)).
    reflexivity. }
  split; [exact Hfirst|]. split.
  { destruct Hfound as (n & Hg & Hh & Hc).
    { subst key; destruct docs; discriminate. }
    exists n. split; [exact Hg|]. split; [exact Hh|].
    intros Hid. apply Hc. subst css. apply outlineCSS_plain.
    destruct docs; [|reflexivity].
    rewrite !plain_append, Hid. reflexivity. }
  split.
  - unfold withGlobals; cbv zeta. fold docs.
    unfold bind at 1. unfold useMemo, h'; cbn [memo effect_deps destroy].
    cbn [deps_eqb strict_eqb]. rewrite String.eqb_refl. cbn [andb].
    unfold ret at 1; cbn [fst snd].
    rewrite (bind_normal _ _ _ _ _ (identifier_isActive window _ _ _ v d' Hv)).
    unfold useEffect; cbn [effect_deps]. fold deps.
    rewrite deps_eqb_refl. reflexivity.
  - unfold teardown, run_destroy, h'; cbn [destroy].
    change (clearStyles (One key)) with (clear key).
    destruct (clear_spec key d') as (d'' & Hclear & _ & _ & Hk'' & _).
    unfold outcome, exec; rewrite Hclear; simpl.
    split; [reflexivity|]. rewrite Hk'', Hk.
    assert (Hne : String.eqb key "" = false).
    { subst key; destruct docs; reflexivity. }
    rewrite Hne.
    destruct (invariant_cases key d Hinv) as [->|[m ->]]; reflexivity.
Qed.

Lemma withGlobals_lifecycle_witness :
  let window := [("isActive", VBool true)] in
  let ctx := mkContext "story" "button--primary" in
  let g := mkGlobals (VBool false) in
  lookup "isActive" window = Some (VBool true) /\ truthy (VBool true) = true /\
  wf outlined /\ available outlined /\ invariant outlined /\
  let docs := String.eqb (viewMode ctx) "docs" in
  let key := if docs then ("addon-outline-docs-" ++ id ctx)%string else "addon-outline" in
  let css := outlineCSS (if docs then ("#anchor--" ++ id ctx ++ " .docs-story")%string
                         else ".sb-show-main") in
  exists h' d',
    withGlobals window ctx g no_hooks outlined = (Normal h', d') /\
    (exists n, getElementById key d' = Some n /\ holds css d' n /\
               (plain (id ctx) = true -> content d' n = Some css)) /\
    withGlobals window ctx g h' d' = (Normal h', d') /\
    outcome (teardown h') d' = Normal tt /\
    blocks key (exec (teardown h') d') = [].
Proof.
  split; [reflexivity|]. split; [reflexivity|]. split; [exact outlined_wf|].
  split; [exact outlined_available|]. split; [exact outlined_invariant|].
  exact (withGlobals_lifecycle [("isActive", VBool true)]
           (mkContext "story" "button--primary") (mkGlobals (VBool false))
           (VBool true) outlined eq_refl eq_refl
           outlined_wf outlined_available outlined_invariant).
Defined.

(** * The first decorator: properties of the tree *)

Section TreeFacts.
Import Preview.

(** Induction on a tree and on its forests at once, with the names the
    proofs below use. *)
Ltac tree_induction :=
  apply html_forest_ind;
  [ intros s
  | intros r' tg' i' st' ks' IHks
  |
  | intros k IHk rest IHrest ].

Lemma update_fresh r g :
  (forall n, ~ In r (refs n) -> update r g n = n) /\
  (forall f, ~ In r (refs_forest f) -> update_forest r g f = f).
Proof.
  tree_induction; simpl; auto.
  - intros Hnot. destruct (Nat.eqb_spec r' r) as [->|Hne]; [tauto|].
    rewrite IHks; tauto.
  - intros Hnot. rewrite IHk, IHrest; auto; intros Hin; apply Hnot, in_or_app; auto.
Qed.

Lemma find_ref_fresh r :
  (forall n, ~ In r (refs n) -> find (is_ref r) n = None) /\
  (forall f, ~ In r (refs_forest f) -> find_forest (is_ref r) f = None).
Proof.
  tree_induction; simpl; auto.
  - intros Hnot. unfold is_ref at 1.
    destruct (Nat.eqb_spec r' r) as [->|Hne]; [tauto|].
    apply IHks; tauto.
  - intros Hnot. rewrite IHk, IHrest; auto; intros Hin; apply Hnot, in_or_app; auto.
Qed.

Lemma prune_fresh r :
  (forall n, ~ In r (refs n) -> forall rest, prune r (Cons n rest) = Cons n (prune r rest)) /\
  (forall f, ~ In r (refs_forest f) -> prune r f = f).
Proof.
  tree_induction; simpl; auto.
  - intros Hnot rest. destruct (Nat.eqb_spec r' r) as [->|Hne]; [tauto|].
    rewrite IHks; tauto.
  - intros Hnot.
    assert (Hn : ~ In r (refs k)) by (intros Hin; apply Hnot, in_or_app; auto).
    assert (Hr : ~ In r (refs_forest rest)) by (intros Hin; apply Hnot, in_or_app; auto).
    specialize (IHk Hn rest). simpl in IHk. rewrite IHk, IHrest; auto.
Qed.

(** What [find] returns is an element of the tree that passes the
    test. *)
Lemma find_sound p :
  (forall n0 n, find p n0 = Some n ->
     incl (refs n) (refs n0) /\
     exists r tg i st ks, n = Elem r tg i st ks /\ p r tg i = true) /\
  (forall f n, find_forest p f = Some n ->
     incl (refs n) (refs_forest f) /\
     exists r tg i st ks, n = Elem r tg i st ks /\ p r tg i = true).
Proof.
  tree_induction; simpl; try discriminate.
  - intros n H. destruct (p r' tg' i') eqn:Hp.
    + injection H as <-. split; [apply incl_refl | eauto 10].
    + destruct (IHks n H) as [Hi He]. split; [|exact He].
      now apply incl_tl.
  - intros n H. destruct (find p k) as [x|] eqn:Hf.
    + injection H as ->. destruct (IHk n eq_refl) as [Hi He].
      split; [now apply incl_appl | exact He].
    + destruct (IHrest n H) as [Hi He]. split; [now apply incl_appr | exact He].
Qed.

Lemma NoDup_app_parts (l1 l2 : list nat) :
  NoDup (l1 ++ l2) ->
  NoDup l1 /\ NoDup l2 /\ (forall x, In x l1 -> ~ In x l2).
Proof.
  induction l1 as [|a l1 IH]; simpl; intros H.
  - split; [constructor | split; [assumption | tauto]].
  - inversion H as [|? ? Ha Hl]; subst. destruct (IH Hl) as (H1 & H2 & H3).
    split; [constructor; auto; intros Hin; apply Ha, in_or_app; auto|].
    split; [assumption|].
    intros x [<-|Hx]; [intros Hin; apply Ha, in_or_app; auto | auto].
Qed.

(** The first element that passes a test is still the first after an
    update inside it, when references are distinct. *)
Lemma find_update p r g :
  keeps g ->
  (forall n0, NoDup (refs n0) -> forall n, find p n0 = Some n -> In r (refs n) ->
     find p (update r g n0) = Some (update r g n)) /\
  (forall f, NoDup (refs_forest f) -> forall n, find_forest p f = Some n -> In r (refs n) ->
     find_forest p (update_forest r g f) = Some (update r g n)).
Proof.
  intros Hg. tree_induction; simpl; try discriminate.
  - intros Hnd n H Hin. destruct (p r' tg' i') eqn:Hp.
    + injection H as <-. simpl.
      destruct (Nat.eqb r' r).
      * destruct (Hg r' tg' i' st' ks') as (st'' & ks'' & E).
        rewrite E; simpl. now rewrite Hp.
      * simpl. now rewrite Hp.
    + inversion Hnd as [|? ? Hnot Hnd']; subst.
      destruct (proj2 (find_sound p) _ _ H) as [Hincl _].
      destruct (Nat.eqb_spec r' r) as [->|Hne]; [elim Hnot; auto|].
      simpl. rewrite Hp. apply IHks; auto.
  - intros Hnd n H Hin.
    destruct (NoDup_app_parts _ _ Hnd) as (Hn & Hr & Hdis).
    destruct (find p k) as [x|] eqn:Hf.
    + injection H as ->. now rewrite (IHk Hn n eq_refl Hin).
    + destruct (proj2 (find_sound p) _ _ H) as [Hincl _].
      assert (Hnot : ~ In r (refs k)) by (intros Hin'; apply (Hdis r Hin'); auto).
      rewrite (proj1 (update_fresh r g) k Hnot), Hf. apply IHrest; auto.
Qed.

(** With distinct references the element a test finds is the one its
    reference stands for. *)
Lemma find_by_ref p :
  (forall n0, NoDup (refs n0) -> forall r tg i st ks,
     find p n0 = Some (Elem r tg i st ks) ->
     find (is_ref r) n0 = Some (Elem r tg i st ks)) /\
  (forall f, NoDup (refs_forest f) -> forall r tg i st ks,
     find_forest p f = Some (Elem r tg i st ks) ->
     find_forest (is_ref r) f = Some (Elem r tg i st ks)).
Proof.
  tree_induction; simpl; try discriminate.
  - intros Hnd r tg i st ks H. destruct (p r' tg' i') eqn:Hp.
    + injection H as -> -> -> -> ->. unfold is_ref at 1. now rewrite Nat.eqb_refl.
    + inversion Hnd as [|? ? Hnot Hnd']; subst.
      destruct (proj2 (find_sound p) _ _ H) as [Hincl _].
      unfold is_ref at 1.
      destruct (Nat.eqb_spec r' r) as [->|Hne]; [elim Hnot; apply Hincl; simpl; auto|].
      apply IHks; auto.
  - intros Hnd r tg i st ks H.
    destruct (NoDup_app_parts _ _ Hnd) as (Hn & Hr & Hdis).
    destruct (find p k) as [x|] eqn:Hf.
    + injection H as ->. now rewrite (IHk Hn _ _ _ _ _ eq_refl).
    + destruct (proj2 (find_sound p) _ _ H) as [Hincl _].
      assert (Hnot : ~ In r (refs k)).
      { intros Hin; apply (Hdis r Hin). apply Hincl; simpl; auto. }
      rewrite (proj1 (find_ref_fresh r) k Hnot). apply IHrest; auto.
Qed.

Lemma find_snoc p f e :
  find_forest p (snoc f e) =
    match find_forest p f with
    | Some x => Some x
    | None => find p e
    end.
Proof.
  induction f as [s|r0 tg0 i0 st0 ks0 IHks| |k IHk rest IH] using forest_mut
    with (P := fun _ => True); [exact I | exact I | | ]; simpl; auto.
  - now destruct (find p e).
  - destruct (find p k); auto.
Qed.

Lemma refs_snoc f e : refs_forest (snoc f e) = refs_forest f ++ refs e.
Proof.
  induction f as [s|r0 tg0 i0 st0 ks0 IHks| |k IHk rest IH] using forest_mut
    with (P := fun _ => True); [exact I | exact I | | ]; simpl; auto.
  - now rewrite app_nil_r.
  - now rewrite IH, app_assoc.
Qed.

Lemma update_snoc r g f e :
  update_forest r g (snoc f e) = snoc (update_forest r g f) (update r g e).
Proof.
  induction f as [s|r0 tg0 i0 st0 ks0 IHks| |k IHk rest IH] using forest_mut
    with (P := fun _ => True); [exact I | exact I | | ]; simpl; auto.
  now rewrite IH.
Qed.

Lemma prune_snoc_fresh r tg i st ks f :
  ~ In r (refs_forest f) -> prune r (snoc f (Elem r tg i st ks)) = f.
Proof.
  induction f as [s|r0 tg0 i0 st0 ks0 IHks| |k IHk rest IH] using forest_mut
    with (P := fun _ => True); [exact I | exact I | | ]; simpl; auto.
  - now rewrite Nat.eqb_refl.
  - intros Hnot. destruct k as [s|r' tg' i' st' ks'].
    + simpl in Hnot. now rewrite IH.
    + simpl in Hnot.
      destruct (Nat.eqb_spec r' r) as [->|Hne]; [elim Hnot; auto|].
      rewrite IH by (intros Hin; apply Hnot; right; apply in_or_app; auto).
      rewrite (proj2 (prune_fresh r) ks')
        by (intros Hin; apply Hnot; right; apply in_or_app; auto).
      reflexivity.
Qed.

(** Attaching an element and then changing it is attaching the changed
    element. *)
Lemma update_add_child new g root tg i st ks :
  (forall n, ~ In new (refs n) ->
     update new g (update root (add_child (Elem new tg i st ks)) n)
     = update root (add_child (g (Elem new tg i st ks))) n) /\
  (forall f, ~ In new (refs_forest f) ->
     update_forest new g (update_forest root (add_child (Elem new tg i st ks)) f)
     = update_forest root (add_child (g (Elem new tg i st ks))) f).
Proof.
  tree_induction; simpl; auto.
  - intros Hnot. destruct (Nat.eqb_spec r' new) as [->|Hne]; [tauto|].
    destruct (Nat.eqb r' root); simpl.
    + destruct (Nat.eqb_spec r' new); [congruence|].
      rewrite update_snoc. simpl. rewrite Nat.eqb_refl.
      rewrite (proj2 (update_fresh new g) ks'); tauto.
    + destruct (Nat.eqb_spec r' new); [congruence|].
      rewrite IHks; tauto.
  - intros Hnot. rewrite IHk, IHrest; auto; intros Hin; apply Hnot, in_or_app; auto.
Qed.

End TreeFacts.

Section PageFacts.
Import Preview.
Local Open Scope page_scope.

Lemma bind_ok {A B} (m : P A) (k : A -> P B) pg a pg' :
  m pg = (Ok a, pg') -> bind m k pg = k a pg'.
Proof. unfold bind; now intros ->. Qed.

Lemma keeps_with_children ks : keeps (with_children ks).
Proof. intros r tg i st ks0; simpl; eauto. Qed.

Lemma keeps_add_child c : keeps (add_child c).
Proof. intros r tg i st ks0; simpl; eauto. Qed.

Lemma wf_parts pg :
  wf pg ->
  NoDup (refs_forest (document pg)) /\ NoDup (refs_forest (detached pg)) /\
  (forall x, In x (refs_forest (document pg)) -> ~ In x (refs_forest (detached pg))) /\
  (forall x, In x (refs_forest (document pg)) -> x < next pg) /\
  (forall x, In x (refs_forest (detached pg)) -> x < next pg).
Proof.
  intros [Hnd Hb]. destruct (NoDup_app_parts _ _ Hnd) as (H1 & H2 & H3).
  rewrite Forall_forall in Hb.
  repeat split; auto; intros x Hx; apply Hb, in_or_app; auto.
Qed.

(** The element found under an id, as [getElementById] reports it. *)
Lemma getElementById_find sel pg root :
  outcome (getElementById sel) pg = Ok (Some root) <->
  exists tg i st ks,
    find_forest (is_id sel) (document pg) = Some (Elem root tg i st ks).
Proof.
  unfold outcome, getElementById, gets; simpl. split.
  - intros [= H]. destruct (find_forest (is_id sel) (document pg)) as [[s|r tg i st ks]|];
      simpl in H; try discriminate. injection H as ->. eauto.
  - intros (tg & i & st & ks & ->). reflexivity.
Qed.

Lemma lookup_attached p pg r tg i st ks :
  wf pg ->
  find_forest p (document pg) = Some (Elem r tg i st ks) ->
  lookup r pg = Some (Elem r tg i st ks).
Proof.
  intros Hwf H. destruct (wf_parts pg Hwf) as (Hnd & _).
  unfold lookup. now rewrite (proj2 (find_by_ref p) _ Hnd _ _ _ _ _ H).
Qed.

Lemma querySelector_below root tag pg :
  querySelector root tag pg = (Ok (found_ref (below root tag pg)), pg).
Proof.
  unfold querySelector, below, gets.
  destruct (lookup root pg) as [[s|r tg i st ks]|]; reflexivity.
Qed.

(** With a [pre] below the root the script only rewrites its text. *)
Lemma display_found sel stt pg root tg i st ks p tg' i' st' ks' :
  wf pg ->
  find_forest (is_id sel) (document pg) = Some (Elem root tg i st ks) ->
  find_forest (is_tag "pre") ks = Some (Elem p tg' i' st' ks') ->
  displayToolState sel stt pg = set_innerText p (message stt) pg.
Proof.
  intros Hwf Hroot Hpre. unfold displayToolState.
  assert (Hget : getElementById sel pg = (Ok (Some root), pg)).
  { unfold getElementById, gets. now rewrite Hroot. }
  rewrite (bind_ok _ _ _ _ _ Hget).
  assert (Hq : querySelector root "pre" pg = (Ok (Some p), pg)).
  { rewrite querySelector_below. unfold below.
    rewrite (lookup_attached _ pg _ _ _ _ _ Hwf Hroot), Hpre. reflexivity. }
  rewrite (bind_ok _ _ _ _ _ Hq). reflexivity.
Qed.

Lemma style_setProperty_fresh r name value tg i st ks D X n :
  ~ In r (refs_forest D) -> ~ In r (refs_forest X) ->
  style_setProperty r name value (mkPage D (snoc X (Elem r tg i st ks)) n)
  = (Ok tt, mkPage D (snoc X (Elem r tg i (set_declaration name value st) ks)) n).
Proof.
  intros HD HX. unfold style_setProperty, modify, update_page; simpl.
  rewrite (proj2 (update_fresh r _) D HD), update_snoc.
  rewrite (proj2 (update_fresh r _) X HX). simpl. now rewrite Nat.eqb_refl.
Qed.

(** Without a [pre] below the root the script creates one, gives it its
    declarations and its text and makes it the last child of the root. *)
Lemma display_created sel stt pg root tg i st ks :
  wf pg ->
  find_forest (is_id sel) (document pg) = Some (Elem root tg i st ks) ->
  find_forest (is_tag "pre") ks = None ->
  displayToolState sel stt pg =
    (Ok tt,
     mkPage
       (update_forest root
          (add_child
             (Elem (next pg) "pre" None pre_style
                (fragment (S (next pg)) (pieces EmptyString (message stt)))))
          (document pg))
       (detached pg)
       (S (next pg) + breaks (pieces EmptyString (message stt)))).
Proof.
  intros Hwf Hroot Hpre.
  destruct (wf_parts pg Hwf) as (HndD & HndX & Hdis & HbD & HbX).
  destruct pg as [D X nx]; simpl in *.
  assert (HfD : ~ In nx (refs_forest D)) by (intros Hin; apply HbD in Hin; lia).
  assert (HfX : ~ In nx (refs_forest X)) by (intros Hin; apply HbX in Hin; lia).
  assert (HrD : In root (refs_forest D)).
  { apply (proj1 (proj2 (find_sound _) _ _ Hroot)). simpl; auto. }
  assert (Hne : root <> nx) by (intros ->; tauto).
  unfold displayToolState.
  assert (Hget : getElementById sel (mkPage D X nx) = (Ok (Some root), mkPage D X nx)).
  { unfold getElementById, gets; simpl. now rewrite Hroot. }
  rewrite (bind_ok _ _ _ _ _ Hget).
  assert (Hq : querySelector root "pre" (mkPage D X nx) = (Ok None, mkPage D X nx)).
  { rewrite querySelector_below. unfold below.
    rewrite (lookup_attached _ (mkPage D X nx) _ _ _ _ _ Hwf Hroot), Hpre. reflexivity. }
  rewrite (bind_ok _ _ _ _ _ Hq).
  set (msg := message stt).
  unfold bind at 1. unfold bind at 1. unfold createElement; simpl.
  rewrite (bind_ok _ _ _ _ _ (style_setProperty_fresh nx _ _ _ _ _ _ D X _ HfD HfX)).
  rewrite (bind_ok _ _ _ _ _ (style_setProperty_fresh nx _ _ _ _ _ _ D X _ HfD HfX)).
  rewrite (bind_ok _ _ _ _ _ (style_setProperty_fresh nx _ _ _ _ _ _ D X _ HfD HfX)).
  rewrite (bind_ok _ _ _ _ _ (style_setProperty_fresh nx _ _ _ _ _ _ D X _ HfD HfX)).
  rewrite (bind_ok _ _ _ _ _ (style_setProperty_fresh nx _ _ _ _ _ _ D X _ HfD HfX)).
  change (set_declaration "max-width" "600px"
            (set_declaration "border-radius" "3px"
               (set_declaration "background-color" "#eee"
                  (set_declaration "padding" "1rem"
                     (set_declaration "margin-top" "2rem" [])))))
    with pre_style.
  set (e := Elem nx "pre" None pre_style Nil).
  assert (Happ : appendChild root nx (mkPage D (snoc X e) (S nx))
                 = (Ok tt, mkPage (update_forest root (add_child e) D) X (S nx))).
  { unfold appendChild, lookup; simpl.
    rewrite (proj2 (find_ref_fresh nx) D HfD), find_snoc.
    rewrite (proj2 (find_ref_fresh nx) X HfX).
    unfold e at 1; simpl. unfold is_ref at 1. rewrite Nat.eqb_refl.
    rewrite (proj2 (find_by_ref _) _ HndD _ _ _ _ _ Hroot).
    unfold update_page; simpl.
    rewrite (proj2 (prune_fresh nx) D HfD).
    unfold e at 2. rewrite (prune_snoc_fresh nx _ _ _ _ X HfX).
    rewrite (proj2 (update_fresh root _) X (Hdis root HrD)).
    unfold is_ref. destruct (Nat.eqb_spec nx root) as [E|_]; [congruence | reflexivity]. }
  rewrite (bind_ok _ _ _ _ _ Happ). unfold ret at 1.
  unfold set_innerText, update_page; simpl.
  unfold e. rewrite (proj2 (update_add_child nx _ root _ _ _ _) D HfD); simpl.
  rewrite (proj2 (update_fresh nx _) X HfX). reflexivity.
Qed.

End PageFacts.

Section WellFormedPages.
Import Preview.
Local Open Scope page_scope.

Lemma NoDup_app_intro (l1 l2 : list nat) :
  NoDup l1 -> NoDup l2 -> (forall x, In x l1 -> ~ In x l2) -> NoDup (l1 ++ l2).
Proof.
  induction 1 as [|a l1 Ha Hl IH]; simpl; intros H2 Hdis; auto.
  constructor.
  - intros Hin. apply in_app_or in Hin. destruct Hin as [Hin|Hin]; [tauto|].
    apply (Hdis a); auto.
  - apply IH; auto.
Qed.

Lemma refs_fragment a ps : refs_forest (fragment a ps) = seq a (breaks ps).
Proof.
  revert a; induction ps as [|[s|] ps IH]; intros a; simpl; auto.
  unfold breaks in *; simpl. now rewrite IH.
Qed.

(** An update that brings in new references only keeps the references
    distinct. *)
Lemma refs_update (F : list nat) r g :
  (forall r0 tg i st ks,
     NoDup (refs (Elem r0 tg i st ks)) ->
     (forall x, In x F -> ~ In x (refs (Elem r0 tg i st ks))) ->
     NoDup (refs (g (Elem r0 tg i st ks))) /\
     forall y, In y (refs (g (Elem r0 tg i st ks))) ->
               In y (refs (Elem r0 tg i st ks)) \/ In y F) ->
  (forall n, NoDup (refs n) -> (forall x, In x F -> ~ In x (refs n)) ->
     NoDup (refs (update r g n)) /\
     forall y, In y (refs (update r g n)) -> In y (refs n) \/ In y F) /\
  (forall f, NoDup (refs_forest f) -> (forall x, In x F -> ~ In x (refs_forest f)) ->
     NoDup (refs_forest (update_forest r g f)) /\
     forall y, In y (refs_forest (update_forest r g f)) -> In y (refs_forest f) \/ In y F).
Proof.
  intros Hg. apply html_forest_ind.
  - intros s _ _; simpl; split; [constructor | tauto].
  - intros r' tg' i' st' ks' IHks Hnd Hfresh.
    simpl update. destruct (Nat.eqb r' r); [now apply Hg|].
    simpl in *. inversion Hnd as [|? ? Hnot Hnd']; subst.
    destruct (IHks Hnd') as [H1 H2].
    { intros x Hx Hin. apply (Hfresh x Hx); auto. }
    split.
    + constructor; auto. intros Hin. apply H2 in Hin. destruct Hin as [Hin|Hin]; [tauto|].
      apply (Hfresh r' Hin); auto.
    + intros y [<-|Hy]; [auto|]. apply H2 in Hy. tauto.
  - intros _ _; simpl; split; [constructor | tauto].
  - intros k IHk rest IHrest Hnd Hfresh. simpl in *.
    destruct (NoDup_app_parts _ _ Hnd) as (Hk & Hr & Hdis).
    assert (Hfk : forall x, In x F -> ~ In x (refs k))
      by (intros x Hx Hin; apply (Hfresh x Hx), in_or_app; auto).
    assert (Hfr : forall x, In x F -> ~ In x (refs_forest rest))
      by (intros x Hx Hin; apply (Hfresh x Hx), in_or_app; auto).
    destruct (in_dec Nat.eq_dec r (refs k)) as [Hin|Hnot].
    + rewrite (proj2 (update_fresh r g) rest (Hdis r Hin)).
      destruct (IHk Hk Hfk) as [H1 H2]. split.
      * apply NoDup_app_intro; auto.
        intros x Hx. apply H2 in Hx. destruct Hx as [Hx|Hx]; [auto|].
        now apply Hfr.
      * intros y Hy. apply in_app_or in Hy. destruct Hy as [Hy|Hy].
        { apply H2 in Hy. destruct Hy; [left; apply in_or_app|]; auto. }
        left; apply in_or_app; auto.
    + rewrite (proj1 (update_fresh r g) k Hnot).
      destruct (IHrest Hr Hfr) as [H1 H2]. split.
      * apply NoDup_app_intro; auto.
        intros x Hx Hx'. apply H2 in Hx'. destruct Hx' as [Hx'|Hx'].
        { now apply (Hdis x). }
        now apply (Hfk x).
      * intros y Hy. apply in_app_or in Hy. destruct Hy as [Hy|Hy].
        { left; apply in_or_app; auto. }
        apply H2 in Hy. destruct Hy; [left; apply in_or_app|]; auto.
Qed.

(** A page stays well formed when an element of the document gets new
    children or a new last child whose references are the next ones. *)
Lemma wf_update pg r g a b :
  wf pg -> In r (refs_forest (document pg)) -> next pg <= a ->
  (forall r0 tg i st ks,
     NoDup (refs (Elem r0 tg i st ks)) ->
     (forall x, In x (seq a b) -> ~ In x (refs (Elem r0 tg i st ks))) ->
     NoDup (refs (g (Elem r0 tg i st ks))) /\
     forall y, In y (refs (g (Elem r0 tg i st ks))) ->
               In y (refs (Elem r0 tg i st ks)) \/ In y (seq a b)) ->
  wf (mkPage (update_forest r g (document pg)) (detached pg) (a + b)).
Proof.
  intros Hwf Hr Ha Hg.
  destruct (wf_parts pg Hwf) as (HndD & HndX & Hdis & HbD & HbX).
  assert (Hfresh : forall x, In x (seq a b) -> ~ In x (refs_forest (document pg))).
  { intros x Hx Hin. apply in_seq in Hx. apply HbD in Hin. lia. }
  destruct (proj2 (refs_update (seq a b) r g Hg) _ HndD Hfresh) as [H1 H2].
  split; simpl.
  - apply NoDup_app_intro; auto.
    intros x Hx Hx'. apply H2 in Hx. destruct Hx as [Hx|Hx].
    + now apply (Hdis x).
    + apply in_seq in Hx. apply HbX in Hx'. lia.
  - apply Forall_forall. intros x Hx. apply in_app_or in Hx.
    destruct Hx as [Hx|Hx].
    + apply H2 in Hx. destruct Hx as [Hx|Hx].
      * apply HbD in Hx. lia.
      * apply in_seq in Hx. lia.
    + apply HbX in Hx. lia.
Qed.

Lemma with_children_refs a ps r0 tg i st ks :
  NoDup (refs (Elem r0 tg i st ks)) ->
  (forall x, In x (seq a (breaks ps)) -> ~ In x (refs (Elem r0 tg i st ks))) ->
  NoDup (refs (with_children (fragment a ps) (Elem r0 tg i st ks))) /\
  forall y, In y (refs (with_children (fragment a ps) (Elem r0 tg i st ks))) ->
            In y (refs (Elem r0 tg i st ks)) \/ In y (seq a (breaks ps)).
Proof.
  intros Hnd Hfresh. simpl. rewrite refs_fragment. split.
  - constructor; [|apply seq_NoDup].
    intros Hin. apply (Hfresh r0 Hin). simpl; auto.
  - intros y [<-|Hy]; [left; simpl; auto | auto].
Qed.

Lemma add_child_refs a b c r0 tg i st ks :
  refs c = seq a b ->
  NoDup (refs (Elem r0 tg i st ks)) ->
  (forall x, In x (seq a b) -> ~ In x (refs (Elem r0 tg i st ks))) ->
  NoDup (refs (add_child c (Elem r0 tg i st ks))) /\
  forall y, In y (refs (add_child c (Elem r0 tg i st ks))) ->
            In y (refs (Elem r0 tg i st ks)) \/ In y (seq a b).
Proof.
  intros Hc Hnd Hfresh. simpl in *. rewrite refs_snoc, Hc.
  inversion Hnd as [|? ? Hnot Hnd']; subst. split.
  - constructor.
    + intros Hin. apply in_app_or in Hin. destruct Hin as [Hin|Hin]; [tauto|].
      apply (Hfresh r0 Hin); auto.
    + apply NoDup_app_intro; auto using seq_NoDup.
      intros x Hx Hx'. apply (Hfresh x Hx'); auto.
  - intros y [<-|Hy]; [auto|]. apply in_app_or in Hy. tauto.
Qed.

End WellFormedPages.

Section DisplayFacts.
Import Preview.
Local Open Scope page_scope.

Lemma is_tag_pre r tg i : is_tag "pre" r tg i = true -> tg = "pre".
Proof. unfold is_tag. apply String.eqb_eq. Qed.

Lemma find_NoDup p :
  (forall n1, NoDup (refs n1) -> forall n0, find p n1 = Some n0 -> NoDup (refs n0)) /\
  (forall f, NoDup (refs_forest f) -> forall n0, find_forest p f = Some n0 ->
             NoDup (refs n0)).
Proof.
  apply html_forest_ind; simpl; try discriminate.
  - intros r' tg' i' st' ks' IH Hnd n0 H.
    destruct (p r' tg' i'); [now injection H as <-|].
    inversion Hnd; subst. eauto.
  - intros k IHk rest IHrest Hnd n0 H.
    destruct (NoDup_app_parts _ _ Hnd) as (Hk & Hr & _).
    destruct (find p k) eqn:E; [injection H as ->; eauto | eauto].
Qed.

(** One call of the script on a well-formed page in which the root is
    found: what it returns, and what is found afterwards. *)
Lemma display_step sel stt pg root tg i st ks :
  wf pg ->
  find_forest (is_id sel) (document pg) = Some (Elem root tg i st ks) ->
  exists pg' ks2 p i' st' a,
    displayToolState sel stt pg = (Ok tt, pg') /\
    wf pg' /\
    find_forest (is_id sel) (document pg') = Some (Elem root tg i st ks2) /\
    find_forest (is_tag "pre") ks2
      = Some (Elem p "pre" i' st' (fragment a (pieces EmptyString (message stt)))) /\
    (forall q tg2 i2 st2 ks3,
       find_forest (is_tag "pre") ks = Some (Elem q tg2 i2 st2 ks3) ->
       p = q /\ i' = i2 /\ st' = st2 /\ a = next pg /\
       pg' = exec (set_innerText q (message stt)) pg) /\
    (find_forest (is_tag "pre") ks = None ->
       p = next pg /\ i' = None /\ st' = pre_style /\ a = S (next pg) /\
       ks2 = snoc ks (Elem p "pre" i' st' (fragment a (pieces EmptyString (message stt)))) /\
       detached pg' = detached pg).
Proof.
  intros Hwf Hroot.
  destruct (wf_parts pg Hwf) as (HndD & HndX & Hdis & HbD & HbX).
  assert (Hks : NoDup (refs_forest ks) /\ ~ In root (refs_forest ks)).
  { pose proof (proj2 (find_by_ref _) _ HndD _ _ _ _ _ Hroot) as Hr.
    pose proof (proj2 (find_NoDup _) _ HndD _ Hroot) as Hn0.
    simpl in Hn0. inversion Hn0; subst. auto. }
  destruct Hks as [Hndks Hrootks].
  assert (HrD : In root (refs_forest (document pg))).
  { apply (proj1 (proj2 (find_sound _) _ _ Hroot)). simpl; auto. }
  set (ps := pieces EmptyString (message stt)).
  destruct (find_forest (is_tag "pre") ks) as [np|] eqn:Hpre.
  - destruct (proj2 (find_sound _) _ _ Hpre) as [Hincl (p & tg' & i' & st' & ks' & -> & Htag)].
    apply is_tag_pre in Htag; subst tg'.
    assert (Hp : In p (refs_forest ks)) by (apply Hincl; simpl; auto).
    assert (Hne : root <> p) by (intros ->; tauto).
    assert (HpD : In p (refs_forest (document pg))).
    { apply (proj1 (proj2 (find_sound _) _ _ Hroot)). simpl; auto. }
    pose proof (display_found sel stt pg _ _ _ _ _ _ _ _ _ _ Hwf Hroot Hpre) as Hrun.
    set (g := with_children (fragment (next pg) ps)).
    assert (Hset : set_innerText p (message stt) pg
                   = (Ok tt, mkPage (update_forest p g (document pg)) (detached pg)
                               (next pg + breaks ps))).
    { unfold set_innerText, update_page; cbv zeta; cbn [document detached next].
      fold ps g.
      now rewrite (proj2 (update_fresh p g) _ (Hdis p HpD)). }
    exists (mkPage (update_forest p g (document pg)) (detached pg) (next pg + breaks ps)),
           (update_forest p g ks), p, i', st', (next pg).
    split; [now rewrite Hrun|]. split.
    { apply wf_update; auto. intros; now apply with_children_refs. }
    split.
    { simpl. rewrite (proj2 (find_update _ p g (keeps_with_children _)) _ HndD _ Hroot)
        by (simpl; auto).
      simpl. destruct (Nat.eqb_spec root p); [congruence | reflexivity]. }
    split.
    { rewrite (proj2 (find_update _ p g (keeps_with_children _)) _ Hndks _ Hpre)
        by (simpl; auto).
      simpl. now rewrite Nat.eqb_refl. }
    split.
    { intros q tg2 i2 st2 ks3 [= -> _ -> -> _].
      repeat split. unfold exec. now rewrite Hset. }
    discriminate.
  - pose proof (display_created sel stt pg _ _ _ _ _ Hwf Hroot Hpre) as Hrun.
    fold ps in Hrun.
    set (e := Elem (next pg) "pre" None pre_style (fragment (S (next pg)) ps)) in *.
    exists (mkPage (update_forest root (add_child e) (document pg)) (detached pg)
              (S (next pg) + breaks ps)),
           (snoc ks e), (next pg), None, pre_style, (S (next pg)).
    split; [exact Hrun|]. split.
    { replace (S (next pg) + breaks ps) with (next pg + S (breaks ps)) by lia.
      apply wf_update; auto. intros. apply add_child_refs; auto.
      unfold e; simpl. now rewrite refs_fragment. }
    split.
    { simpl. rewrite (proj2 (find_update _ root _ (keeps_add_child e)) _ HndD _ Hroot)
        by (simpl; auto).
      simpl. now rewrite Nat.eqb_refl. }
    split.
    { rewrite find_snoc, Hpre. reflexivity. }
    split; [discriminate|]. intros _. repeat split.
Qed.

Lemma last_cons {A} (x d : A) l : last (x :: l) d = last l x.
Proof.
  revert x d; induction l as [|y l IH]; intros x d; [reflexivity|].
  change (last (x :: y :: l) d) with (last (y :: l) d).
  now rewrite (IH y d), (IH y x).
Qed.

(** Any number of further calls rewrite the text of the one [pre]. *)
Lemma each_display sel root tg i st p i' st' :
  forall ss pg s0 ks a0,
    wf pg ->
    find_forest (is_id sel) (document pg) = Some (Elem root tg i st ks) ->
    find_forest (is_tag "pre") ks
      = Some (Elem p "pre" i' st' (fragment a0 (pieces EmptyString (message s0)))) ->
    exists pg' ks2 a,
      each (displayToolState sel) ss pg = (Ok tt, pg') /\
      wf pg' /\
      find_forest (is_id sel) (document pg') = Some (Elem root tg i st ks2) /\
      find_forest (is_tag "pre") ks2
        = Some (Elem p "pre" i' st'
                  (fragment a (pieces EmptyString (message (last ss s0))))).
Proof.
  induction ss as [|s ss IH]; intros pg s0 ks a0 Hwf Hroot Hpre.
  - exists pg, ks, a0. cbn [each last].
    split; [reflexivity|]. split; [exact Hwf|]. split; assumption.
  - destruct (display_step sel s pg root tg i st ks Hwf Hroot)
      as (pg1 & ks1 & p1 & i1 & st1 & a1 & Hrun & Hwf1 & Hroot1 & Hpre1 & Hsame & _).
    destruct (Hsame _ _ _ _ _ Hpre) as (-> & -> & -> & _).
    destruct (IH pg1 s ks1 a1 Hwf1 Hroot1 Hpre1) as (pg' & ks2 & a & Hrun' & H1 & H2 & H3).
    exists pg', ks2, a. simpl each. rewrite (bind_ok _ _ _ _ _ Hrun).
    rewrite last_cons.
    split; [exact Hrun'|]. split; [exact H1|]. split; assumption.
Qed.

Lemma has_blank_app a b : has_blank (a ++ b) = has_blank a || has_blank b.
Proof.
  unfold has_blank. induction a as [|c a IH]; simpl; auto.
  now rewrite IH, orb_assoc.
Qed.

(** An id with a blank is found nowhere in a tree whose ids have none. *)
Lemma find_blank sel :
  has_blank sel = true ->
  (forall n, plain_ids n = true -> find (is_id sel) n = None) /\
  (forall f, plain_ids_forest f = true -> find_forest (is_id sel) f = None).
Proof.
  intros Hsel. apply html_forest_ind; simpl; auto.
  - intros r' tg' i' st' ks' IH H. apply andb_true_iff in H. destruct H as [Hi Hk].
    unfold is_id at 1. destruct i' as [x|]; [|auto].
    destruct (String.eqb_spec x sel) as [->|_]; [|rewrite andb_false_r; auto].
    rewrite Hsel in Hi. discriminate.
  - intros k IHk rest IHrest H. apply andb_true_iff in H. destruct H as [Hk Hr].
    now rewrite IHk, IHrest.
Qed.

Lemma same_deps_true old new : same_deps old new = true <-> old = new.
Proof.
  destruct old as [[]|], new as [[]|]; simpl; split; congruence.
Qed.

End DisplayFacts.

(** * The first decorator: what the script does *)

Section FirstDecorator.
Import Preview.
Local Open Scope page_scope.

Lemma story_page_wf : wf story_page.
Proof.
  split; simpl.
  - apply nodupb_nat_sound; reflexivity.
  - repeat constructor.
Qed.

Lemma code_page_wf : wf code_page.
Proof.
  split; simpl.
  - apply nodupb_nat_sound; reflexivity.
  - repeat constructor.
Qed.

Lemma below_find sel pg root tg i st ks tag :
  wf pg ->
  find_forest (is_id sel) (document pg) = Some (Elem root tg i st ks) ->
  below root tag pg = find_forest (is_tag tag) ks.
Proof.
  intros Hwf H. unfold below. now rewrite (lookup_attached _ pg _ _ _ _ _ Hwf H).
Qed.

Lemma displayToolState_without_root sel stt pg :
  find_forest (is_id sel) (document pg) = None ->
  displayToolState sel stt pg = (Raise TypeError, pg).
Proof.
  intros H. unfold displayToolState, bind, getElementById, gets. now rewrite H.
Qed.

End FirstDecorator.

(** X16.  [displayToolState] on a well-formed page in which an element
    carries the id: the call completes normally, the page stays well
    formed, the same element is found under the id, and the first [pre]
    below it holds the text of the state, cut into text nodes and [br]
    elements at its line breaks. *)
Theorem displayToolState_shows_state sel stt pg root :
  Preview.wf pg ->
  Preview.outcome (Preview.getElementById sel) pg = Preview.Ok (Some root) ->
  let pg' := Preview.exec (Preview.displayToolState sel stt) pg in
  Preview.outcome (Preview.displayToolState sel stt) pg = Preview.Ok tt /\
  Preview.wf pg' /\
  Preview.outcome (Preview.getElementById sel) pg' = Preview.Ok (Some root) /\
  exists p i st a,
    Preview.below root "pre" pg'
    = Some (Preview.Elem p "pre" i st
              (Preview.fragment a (Preview.pieces EmptyString (Preview.message stt)))).
Proof.
  intros Hwf Hget pg'; subst pg'.
  apply getElementById_find in Hget. destruct Hget as (tg & i & st & ks & Hroot).
  destruct (display_step sel stt pg root tg i st ks Hwf Hroot)
    as (pg1 & ks1 & p & i1 & st1 & a & Hrun & Hwf1 & Hroot1 & Hpre1 & _).
  unfold Preview.outcome, Preview.exec. rewrite Hrun; simpl.
  split; [reflexivity|]. split; [exact Hwf1|]. split.
  - apply (getElementById_find sel pg1 root). eauto.
  - exists p, i1, st1, a. now rewrite (below_find sel pg1 _ _ _ _ _ _ Hwf1 Hroot1).
Qed.

Lemma displayToolState_shows_state_witness :
  let stt := Preview.mkState (Some true) false in
  Preview.wf Preview.story_page /\
  Preview.outcome (Preview.getElementById "root") Preview.story_page = Preview.Ok (Some 3) /\
  let pg' := Preview.exec (Preview.displayToolState "root" stt) Preview.story_page in
  Preview.outcome (Preview.displayToolState "root" stt) Preview.story_page = Preview.Ok tt /\
  Preview.wf pg' /\
  Preview.outcome (Preview.getElementById "root") pg' = Preview.Ok (Some 3) /\
  exists p i st a,
    Preview.below 3 "pre" pg'
    = Some (Preview.Elem p "pre" i st
              (Preview.fragment a (Preview.pieces EmptyString (Preview.message stt)))).
Proof.
  split; [exact story_page_wf|]. split; [reflexivity|].
  exact (displayToolState_shows_state "root" (Preview.mkState (Some true) false)
           Preview.story_page 3 story_page_wf eq_refl).
Defined.

(** X17.  Without a [pre] below the root, [displayToolState] creates one:
    a new element holding the text of the state; it becomes the last child
    of the root, whose other children, tag, id and declarations are as
    before, and nothing is left detached.  The declarations of the new
    element are those the five calls of [setProperty] give it; how the
    engine writes their values is not stated. *)
Theorem displayToolState_creates_pre sel stt pg root :
  Preview.wf pg ->
  Preview.outcome (Preview.getElementById sel) pg = Preview.Ok (Some root) ->
  Preview.below root "pre" pg = None ->
  let pg' := Preview.exec (Preview.displayToolState sel stt) pg in
  exists declarations,
    let pre :=
      Preview.Elem (Preview.next pg) "pre" None declarations
        (Preview.fragment (S (Preview.next pg))
           (Preview.pieces EmptyString (Preview.message stt))) in
    Preview.below root "pre" pg' = Some pre /\
    Preview.detached pg' = Preview.detached pg /\
    exists tg i st ks,
      Preview.lookup root pg = Some (Preview.Elem root tg i st ks) /\
      Preview.lookup root pg' = Some (Preview.Elem root tg i st (Preview.snoc ks pre)).
Proof.
  intros Hwf Hget Hnone pg'; subst pg'.
  apply getElementById_find in Hget. destruct Hget as (tg & i & st & ks & Hroot).
  rewrite (below_find sel pg _ _ _ _ _ _ Hwf Hroot) in Hnone.
  destruct (display_step sel stt pg root tg i st ks Hwf Hroot)
    as (pg1 & ks1 & p & i1 & st1 & a & Hrun & Hwf1 & Hroot1 & Hpre1 & _ & Hnew).
  destruct (Hnew Hnone) as (-> & -> & -> & -> & -> & Hdet).
  unfold Preview.exec. rewrite Hrun; simpl.
  rewrite (below_find sel pg1 _ _ _ _ _ _ Hwf1 Hroot1).
  eexists. split; [exact Hpre1|]. split; [exact Hdet|].
  exists tg, i, st, ks. split.
  - apply (lookup_attached _ pg _ _ _ _ _ Hwf Hroot).
  - apply (lookup_attached _ pg1 _ _ _ _ _ Hwf1 Hroot1).
Qed.

Lemma displayToolState_creates_pre_witness :
  let stt := Preview.mkState None false in
  let pg := Preview.story_page in
  Preview.wf pg /\
  Preview.outcome (Preview.getElementById "root") pg = Preview.Ok (Some 3) /\
  Preview.below 3 "pre" pg = None /\
  let pg' := Preview.exec (Preview.displayToolState "root" stt) pg in
  exists declarations,
    let pre :=
      Preview.Elem (Preview.next pg) "pre" None declarations
        (Preview.fragment (S (Preview.next pg))
           (Preview.pieces EmptyString (Preview.message stt))) in
    Preview.below 3 "pre" pg' = Some pre /\
    Preview.detached pg' = Preview.detached pg /\
    exists tg i st ks,
      Preview.lookup 3 pg = Some (Preview.Elem 3 tg i st ks) /\
      Preview.lookup 3 pg' = Some (Preview.Elem 3 tg i st (Preview.snoc ks pre)).
Proof.
  split; [exact story_page_wf|]. split; [reflexivity|]. split; [reflexivity|].
  exact (displayToolState_creates_pre "root" (Preview.mkState None false)
           Preview.story_page 3 story_page_wf eq_refl eq_refl).
Defined.

(** X18.  With a [pre] below the root, whoever put it there,
    [displayToolState] creates nothing: the call is the assignment of the
    text to the first such [pre], which keeps its reference, tag, id and
    declarations and loses the children it had. *)
Theorem displayToolState_reuses_pre sel stt pg root p tg i st ks :
  Preview.wf pg ->
  Preview.outcome (Preview.getElementById sel) pg = Preview.Ok (Some root) ->
  Preview.below root "pre" pg = Some (Preview.Elem p tg i st ks) ->
  Preview.displayToolState sel stt pg = Preview.set_innerText p (Preview.message stt) pg /\
  Preview.below root "pre" (Preview.exec (Preview.displayToolState sel stt) pg)
  = Some (Preview.Elem p tg i st
            (Preview.fragment (Preview.next pg)
               (Preview.pieces EmptyString (Preview.message stt)))).
Proof.
  intros Hwf Hget Hpre.
  apply getElementById_find in Hget. destruct Hget as (tg0 & i0 & st0 & ks0 & Hroot).
  rewrite (below_find sel pg _ _ _ _ _ _ Hwf Hroot) in Hpre.
  destruct (display_step sel stt pg root tg0 i0 st0 ks0 Hwf Hroot)
    as (pg1 & ks1 & p1 & i1 & st1 & a & Hrun & Hwf1 & Hroot1 & Hpre1 & Hsame & _).
  destruct (Hsame _ _ _ _ _ Hpre) as (-> & -> & -> & -> & Hpg).
  split.
  - apply (display_found sel stt pg _ _ _ _ _ _ _ _ _ _ Hwf Hroot Hpre).
  - unfold Preview.exec. rewrite Hrun; simpl.
    rewrite (below_find sel pg1 _ _ _ _ _ _ Hwf1 Hroot1), Hpre1.
    destruct (proj2 (find_sound _) _ _ Hpre) as [_ (r2 & tg2 & i2 & st2 & ks2 & E & Htag)].
    injection E as -> -> -> -> ->. apply is_tag_pre in Htag. now subst.
Qed.

Lemma displayToolState_reuses_pre_witness :
  let stt := Preview.mkState (Some false) false in
  let pg := Preview.code_page in
  Preview.wf pg /\
  Preview.outcome (Preview.getElementById "root") pg = Preview.Ok (Some 2) /\
  Preview.below 2 "pre" pg
  = Some (Preview.Elem 3 "pre" (Some "sample") [("color", "navy")]
            (Preview.Cons (Preview.Text "npm start") Preview.Nil)) /\
  Preview.displayToolState "root" stt pg
  = Preview.set_innerText 3 (Preview.message stt) pg /\
  Preview.below 2 "pre" (Preview.exec (Preview.displayToolState "root" stt) pg)
  = Some (Preview.Elem 3 "pre" (Some "sample") [("color", "navy")]
            (Preview.fragment (Preview.next pg)
               (Preview.pieces EmptyString (Preview.message stt)))).
Proof.
  split; [exact code_page_wf|]. split; [reflexivity|]. split; [reflexivity|].
  exact (displayToolState_reuses_pre "root" (Preview.mkState (Some false) false)
           Preview.code_page 2 3 "pre" (Some "sample") [("color", "navy")]
           (Preview.Cons (Preview.Text "npm start") Preview.Nil)
           code_page_wf eq_refl eq_refl).
Defined.

(** X19.  However often the state is displayed there is one [pre] for it:
    on a well-formed page in which the root is found, every sequence of
    calls completes normally, and after it the first [pre] below the root
    is the element the first call found or created, with the declarations
    it had then, showing the state of the last call. *)
Theorem displayToolState_repeated sel s1 pg root :
  Preview.wf pg ->
  Preview.outcome (Preview.getElementById sel) pg = Preview.Ok (Some root) ->
  exists p i st,
    forall ss,
      Preview.outcome (Preview.each (Preview.displayToolState sel) (s1 :: ss)) pg
      = Preview.Ok tt /\
      exists a,
        Preview.below root "pre"
          (Preview.exec (Preview.each (Preview.displayToolState sel) (s1 :: ss)) pg)
        = Some (Preview.Elem p "pre" i st
                  (Preview.fragment a
                     (Preview.pieces EmptyString (Preview.message (last ss s1))))).
Proof.
  intros Hwf Hget.
  apply getElementById_find in Hget. destruct Hget as (tg & i & st & ks & Hroot).
  destruct (display_step sel s1 pg root tg i st ks Hwf Hroot)
    as (pg1 & ks1 & p & i1 & st1 & a1 & Hrun & Hwf1 & Hroot1 & Hpre1 & _).
  exists p, i1, st1. intros ss.
  destruct (each_display sel root tg i st p i1 st1 ss pg1 s1 ks1 a1 Hwf1 Hroot1 Hpre1)
    as (pg' & ks2 & a & Hrun' & Hwf' & Hroot' & Hpre').
  unfold Preview.outcome, Preview.exec. cbn [Preview.each].
  rewrite (bind_ok _ _ _ _ _ Hrun), Hrun'; simpl.
  split; [reflexivity|]. exists a.
  now rewrite (below_find sel pg' _ _ _ _ _ _ Hwf' Hroot').
Qed.

Lemma displayToolState_repeated_witness :
  Preview.wf Preview.story_page /\
  Preview.outcome (Preview.getElementById "root") Preview.story_page = Preview.Ok (Some 3) /\
  exists p i st,
    forall ss,
      Preview.outcome
        (Preview.each (Preview.displayToolState "root") (Preview.mkState None false :: ss))
        Preview.story_page
      = Preview.Ok tt /\
      exists a,
        Preview.below 3 "pre"
          (Preview.exec
             (Preview.each (Preview.displayToolState "root")
                (Preview.mkState None false :: ss)) Preview.story_page)
        = Some (Preview.Elem p "pre" i st
                  (Preview.fragment a
                     (Preview.pieces EmptyString
                        (Preview.message (last ss (Preview.mkState None false)))))).
Proof.
  split; [exact story_page_wf|]. split; [reflexivity|].
  exact (displayToolState_repeated "root" (Preview.mkState None false)
           Preview.story_page 3 story_page_wf eq_refl).
Defined.

(** X20.  In docs mode the first decorator hands a CSS selector,
    [#anchor--<id> .docs-story], to [getElementById].  No id of a
    conforming page contains a blank, so nothing is found: whenever the
    effect is due (first call, or a toggle other than the one of the last
    run) the decorator returns the story and remembers the toggle, and the
    effect then throws a [TypeError] and leaves the page as it is: nothing
    is displayed. *)
Theorem withGlobals_docs_mode_throws {A} (StoryFn : unit -> A) ctx toggle h pg :
  Preview.plain_ids_forest (Preview.document pg) = true ->
  WithGlobals.viewMode ctx = "docs" ->
  h <> Some toggle ->
  fst (Preview.withGlobals StoryFn ctx toggle h) = StoryFn tt /\
  fst (snd (Preview.withGlobals StoryFn ctx toggle h)) = Some toggle /\
  Preview.triggerEffects (snd (snd (Preview.withGlobals StoryFn ctx toggle h))) pg
  = (Preview.Raise Preview.TypeError, pg).
Proof.
  intros Hplain Hdocs Hh.
  unfold Preview.withGlobals. rewrite Hdocs. cbv zeta.
  change (String.eqb "docs" "docs") with true. cbv iota.
  assert (Hblank : Preview.has_blank ("#anchor--" ++ WithGlobals.id ctx ++ " .docs-story") = true).
  { rewrite !has_blank_app. apply orb_true_iff; right. apply orb_true_iff; right. reflexivity. }
  pose proof (displayToolState_without_root _ (Preview.mkState toggle true) pg
                (proj2 (find_blank _ Hblank) _ Hplain)) as Hrun.
  unfold Preview.useEffect.
  assert (Hchanged : match h with
                     | Some old => negb (Preview.same_deps old toggle)
                     | None => true
                     end = true).
  { destruct h as [old|]; [|reflexivity].
    destruct (Preview.same_deps old toggle) eqn:E; [|reflexivity].
    apply same_deps_true in E. congruence. }
  rewrite Hchanged. cbn [fst snd Preview.triggerEffects].
  split; [reflexivity|]. split; [reflexivity | exact Hrun].
Qed.

Lemma withGlobals_docs_mode_throws_witness :
  let ctx := WithGlobals.mkContext "docs" "button--primary" in
  let pg := Preview.story_page in
  Preview.plain_ids_forest (Preview.document pg) = true /\
  WithGlobals.viewMode ctx = "docs" /\
  (None : Preview.effect_hook) <> Some (Some true) /\
  fst (Preview.withGlobals (fun _ => 0) ctx (Some true) None) = 0 /\
  fst (snd (Preview.withGlobals (fun _ => 0) ctx (Some true) None)) = Some (Some true) /\
  Preview.triggerEffects (snd (snd (Preview.withGlobals (fun _ => 0) ctx (Some true) None))) pg
  = (Preview.Raise Preview.TypeError, pg).
Proof.
  assert (Hh : (None : Preview.effect_hook) <> Some (Some true)) by discriminate.
  split; [reflexivity|]. split; [reflexivity|]. split; [exact Hh|].
  exact (withGlobals_docs_mode_throws (fun _ => 0)
           (WithGlobals.mkContext "docs" "button--primary") (Some true) None
           Preview.story_page eq_refl eq_refl Hh).
Defined.

(** X21.  In story mode, on a well-formed page with an element of id
    [root], a call of the first decorator returns what the story returns
    and remembers the toggle; when the effect is due it completes normally,
    and the first [pre] below the root then shows the toggle with
    [isInDocs] false. *)
Theorem withGlobals_story_mode {A} (StoryFn : unit -> A) ctx toggle h pg root :
  Preview.wf pg ->
  String.eqb (WithGlobals.viewMode ctx) "docs" = false ->
  Preview.outcome (Preview.getElementById "root") pg = Preview.Ok (Some root) ->
  h <> Some toggle ->
  let effect := Preview.triggerEffects (snd (snd (Preview.withGlobals StoryFn ctx toggle h))) in
  fst (Preview.withGlobals StoryFn ctx toggle h) = StoryFn tt /\
  fst (snd (Preview.withGlobals StoryFn ctx toggle h)) = Some toggle /\
  Preview.outcome effect pg = Preview.Ok tt /\
  exists p i st a,
    Preview.below root "pre" (Preview.exec effect pg)
    = Some (Preview.Elem p "pre" i st
              (Preview.fragment a
                 (Preview.pieces EmptyString
                    (Preview.message (Preview.mkState toggle false))))).
Proof.
  intros Hwf Hmode Hget Hh effect; subst effect.
  destruct (displayToolState_shows_state "root" (Preview.mkState toggle false) pg root Hwf Hget)
    as (Hok & _ & _ & Hshown).
  unfold Preview.withGlobals. rewrite Hmode. cbv zeta iota.
  unfold Preview.useEffect.
  assert (Hchanged : match h with
                     | Some old => negb (Preview.same_deps old toggle)
                     | None => true
                     end = true).
  { destruct h as [old|]; [|reflexivity].
    destruct (Preview.same_deps old toggle) eqn:E; [|reflexivity].
    apply same_deps_true in E. congruence. }
  rewrite Hchanged. cbn [fst snd Preview.triggerEffects].
  split; [reflexivity|]. split; [reflexivity|]. split; [exact Hok | exact Hshown].
Qed.

Lemma withGlobals_story_mode_witness :
  let ctx := WithGlobals.mkContext "story" "button--primary" in
  let pg := Preview.story_page in
  let effect :=
    Preview.triggerEffects
      (snd (snd (Preview.withGlobals (fun _ => 0) ctx (Some true) (Some None)))) in
  Preview.wf pg /\
  String.eqb (WithGlobals.viewMode ctx) "docs" = false /\
  Preview.outcome (Preview.getElementById "root") pg = Preview.Ok (Some 3) /\
  Some None <> Some (Some true) /\
  fst (Preview.withGlobals (fun _ => 0) ctx (Some true) (Some None)) = 0 /\
  fst (snd (Preview.withGlobals (fun _ => 0) ctx (Some true) (Some None))) = Some (Some true) /\
  Preview.outcome effect pg = Preview.Ok tt /\
  exists p i st a,
    Preview.below 3 "pre" (Preview.exec effect pg)
    = Some (Preview.Elem p "pre" i st
              (Preview.fragment a
                 (Preview.pieces EmptyString
                    (Preview.message (Preview.mkState (Some true) false))))).
Proof.
  assert (Hh : Some (@None bool) <> Some (Some true)) by discriminate.
  split; [exact story_page_wf|]. split; [reflexivity|]. split; [reflexivity|].
  split; [exact Hh|].
  exact (withGlobals_story_mode (fun _ => 0)
           (WithGlobals.mkContext "story" "button--primary") (Some true) (Some None)
           Preview.story_page 3 story_page_wf eq_refl eq_refl Hh).
Defined.

(** X23.  What the [pre] shows: two lines of prose, then the state as
    [JSON.stringify] with an indent of two prints it, one member on a line.
    A toggle that is [undefined] has no line: before the tool is first used
    only [isInDocs] is shown.  Every line ends in a [br], the last one
    too. *)
Theorem message_lines toggle docs :
  Preview.pieces EmptyString (Preview.message (Preview.mkState toggle docs)) =
    [ Preview.Line "This snippet is injected by the withGlobals decorator."
    ; Preview.Break
    ; Preview.Line ("It updates as the user interacts with the " ++ Preview.high_voltage
                    ++ " tool in the toolbar above.")
    ; Preview.Break
    ; Preview.Line "{"
    ; Preview.Break ]
    ++ match toggle with
       | Some b =>
           [ Preview.Line ("  " ++ Preview.quote ++ "outlineActive" ++ Preview.quote ++ ": "
                           ++ Preview.JSON_boolean b ++ ",")
           ; Preview.Break ]
       | None => []
       end
    ++ [ Preview.Line ("  " ++ Preview.quote ++ "isInDocs" ++ Preview.quote ++ ": "
                       ++ Preview.JSON_boolean docs)
       ; Preview.Break
       ; Preview.Line "}"
       ; Preview.Break ].
Proof. destruct toggle as [[]|], docs; reflexivity. Qed.
